(** * Bootstrap node ([main.go]): a shallow embedding and its properties

    The program is one [main] function gluing library calls together.  The
    embedding keeps that shape: [main] is a computation in a small
    state-and-exit monad over a [World] (file system, log, clock and the
    trace of library calls made so far), and every library call takes its
    result from an environment [Env] that stands for everything outside
    the program (operating system, crypto library, network). *)

From Stdlib Require Import ZArith Ascii String List DecimalString DecimalPos DecimalZ.
From stdpp Require Import gmap strings list fin_maps sorting.

Local Open Scope Z_scope.
Local Open Scope string_scope.
Local Open Scope list_scope.

(** ** Errors and results *)

(** A Go [error] value.  The program only tells apart, through
    [os.IsNotExist], the error of a missing file, [ENOENT]; every other
    error matters by being an error and by its text. *)
Inductive error : Type :=
| ENOENT
| EACCES
| DeadlineExceeded
| ErrMsg (msg : string).

Definition error_string (e : error) : string :=
  match e with
  | ENOENT => "no such file or directory"
  | EACCES => "permission denied"
  | DeadlineExceeded => "context deadline exceeded"
  | ErrMsg m => m
  end.

(** The Go pair [(value, error)]. *)
Inductive Result (A : Type) : Type :=
| Ok (a : A)
| Err (e : error).
Arguments Ok {A} a.
Arguments Err {A} e.

(** [os.IsNotExist(e)], where [None] is the nil error. *)
Definition IsNotExist (e : option error) : bool :=
  match e with
  | Some ENOENT => true
  | _ => false
  end.

(** ** [fmt]: operands and their default formatting *)

Inductive Operand : Type :=
| OStr (s : string)
| OInt (n : Z)
| OErr (e : error)
| OList (l : list string).

Definition is_string (o : Operand) : bool :=
  match o with OStr _ => true | _ => false end.

(** Decimal text of an integer, as [%v] prints an [int]. *)
Definition FormatInt (n : Z) : string := NilZero.string_of_int (Z.to_int n).

(** The inverse reading of a decimal text. *)
Definition ParseInt (s : string) : option Z :=
  option_map Z.of_int (NilZero.int_of_string s).

Fixpoint join_space (l : list string) : string :=
  match l with
  | [] => ""
  | [s] => s
  | s :: rest => s +:+ " " +:+ join_space rest
  end.

Definition format_operand (o : Operand) : string :=
  match o with
  | OStr s => s
  | OInt n => FormatInt n
  | OErr e => error_string e
  | OList l => "[" +:+ join_space l +:+ "]"
  end.

(** [fmt.Sprint]: a space goes between two operands when neither is a
    string. *)
Fixpoint Sprint (ops : list Operand) : string :=
  match ops with
  | [] => ""
  | o :: rest =>
      match rest with
      | [] => format_operand o
      | o' :: _ =>
          format_operand o
          +:+ (if is_string o || is_string o' then "" else " ")
          +:+ Sprint rest
      end
  end.

(** [fmt.Sprintln] without the final newline: a space goes between all
    operands.  A log line is kept without its newline and without the
    date and time prefix of the standard logger. *)
Definition Sprintln (ops : list Operand) : string :=
  join_space (map format_operand ops).

(** ** Listen addresses (main.go, lines 82-85) *)

Definition ListenAddrStrings (port : Z) : list string :=
  [ Sprint [OStr "/ip4/0.0.0.0/tcp/"; OInt port];
    Sprint [OStr "/ip4/0.0.0.0/udp/"; OInt port; OStr "/quic"] ].

(** The default of the [-port] flag (line 30). *)
Definition default_port : Z := 6666.

(** ** Time and contexts *)

(** [time.Duration] counts nanoseconds. *)
Definition Nanosecond : Z := 1.
Definition Microsecond : Z := 1000 * Nanosecond.
Definition Millisecond : Z := 1000 * Microsecond.
Definition Second : Z := 1000 * Millisecond.
Definition Minute : Z := 60 * Second.

(** A [context.Context] as the tree the program builds: the background
    context, a cancellable child, a child with a deadline (an instant, in
    nanoseconds). *)
Inductive Context : Type :=
| Background
| CancelCtx (parent : Context)
| TimerCtx (parent : Context) (deadline : Z).

(** [ctx.Deadline()]: the earliest deadline on the path to the root. *)
Fixpoint Deadline (c : Context) : option Z :=
  match c with
  | Background => None
  | CancelCtx p => Deadline p
  | TimerCtx p d =>
      match Deadline p with
      | Some d' => Some (Z.min d d')
      | None => Some d
      end
  end.

(** [c] is [root] or one of its descendants: cancelling [root] cancels
    [c]. *)
Fixpoint derived_from (root c : Context) : Prop :=
  c = root \/
  match c with
  | Background => False
  | CancelCtx p => derived_from root p
  | TimerCtx p _ => derived_from root p
  end.

(** ** Files *)

Definition bytes : Type := list Byte.byte.

Record File : Type := { f_data : bytes; f_mode : Z }.

(** [os.ModePerm]: all nine permission bits, octal 777. *)
Definition os_ModePerm : Z := 511.

(** A mode is owner-only when no group or other bit (octal 077) is
    set. *)
Definition owner_only (mode : Z) : bool := Z.eqb (Z.land mode 63) 0.

(** [filepath.Join dir name] for a directory that is already clean, as
    [filepath.Abs] returns it. *)
Definition filepath_Join (dir name : string) : string :=
  if String.eqb dir "" then name
  else if String.eqb dir "/" then "/" +:+ name
  else dir +:+ "/" +:+ name.

(** ** libp2p values *)

Definition PeerID : Type := string.
Definition Multiaddr : Type := string.

Record AddrInfo : Type := { ai_ID : PeerID; ai_Addrs : list Multiaddr }.

(** What the program reads from a [host.Host]. *)
Record Host : Type := { h_ID : PeerID; h_Addrs : list Multiaddr }.

Inductive KeyType : Type := RSA | Ed25519 | Secp256k1 | ECDSA.

Inductive SecurityTransport : Type := TLS.

Inductive Transport : Type := QUIC | DefaultTransports.

(** The arguments of [connmgr.NewConnManager]. *)
Record ConnManager : Type :=
  { LowWater : Z; HighWater : Z; GracePeriod : Z }.

Definition NewConnManager (low hi grace : Z) : ConnManager :=
  {| LowWater := low; HighWater := hi; GracePeriod := grace |}.

(** What the NAT machinery finds out in the background. *)
Inductive Reachability : Type :=
| ReachabilityUnknown
| ReachabilityPublic
| ReachabilityPrivate.

(** The bootstrap target (line 127). *)
Definition bootstrap_addr : string :=
  "/ip4/104.131.131.82/tcp/4001/p2p/QmaCpDMGvV2BGHeYERUEnRQAwe3N8SzbUtfsmvsqQLuvuJ".

(** The timeout of the bootstrap dial (line 135). *)
Definition bootstrap_timeout : Z := Second * 16.

(** The period of the status ticker (line 144). *)
Definition report_period : Z := Second * 10.

(** A select outcome of the reporter goroutine: the context is done, or
    the ticker fired while the peerstore held [npeers] peers. *)
Inductive SelectCase : Type :=
| CaseDone
| CaseTick (npeers : nat).

(** What happens to the process while it runs: the ticker fires, or a
    SIGINT/SIGTERM arrives at instant [at]. *)
Inductive Event : Type :=
| EvTick (npeers : nat)
| EvSignal (at_ : Z).

(** How a computation ends: with a value, with [os.Exit code], or
    blocked for ever. *)
Inductive Step (A : Type) : Type :=
| Ret (a : A)
| Exit (code : Z)
| Blocked.
Arguments Ret {A} a.
Arguments Exit {A} code.
Arguments Blocked {A}.

Section Model.
Context {PrivKey : Type}.

(** The options given to [libp2p.New] (lines 78-110). *)
Record Config : Type := {
  cfg_ctx : Context;
  cfg_Identity : PrivKey;
  cfg_ListenAddrStrings : list string;
  cfg_Security : list SecurityTransport;
  cfg_Transports : list Transport;
  cfg_ConnectionManager : ConnManager;
  cfg_NATPortMap : bool;
  cfg_Routing_dht : bool;
  cfg_EnableAutoRelay : bool
}.

(** Everything outside the program.  A function field is a library
    call whose result depends on its arguments; a [_fault] field is an
    I/O error the operating system returns whatever the file system
    holds. *)
Record Env : Type := {
  flag_port : Z;
  exe_dir : Result string;
  umask : Z;
  stat_fault : option error;
  read_fault : option error;
  write_fault : option error;
  GenerateKeyPair : KeyType -> Z -> Result PrivKey;
  MarshalPrivateKey : PrivKey -> Result bytes;
  UnmarshalPrivateKey : bytes -> Result PrivKey;
  libp2p_New : Config -> Result Host;
  AddrInfoToP2pAddrs : AddrInfo -> Result (list Multiaddr);
  autonat_New : Context -> Host -> option error;
  NewMultiaddr : string -> Result Multiaddr;
  AddrInfoFromP2pAddr : Multiaddr -> Result AddrInfo;
  (** [Connect h ctx target t]: called at instant [t]; [None] when
      the call never returns, else the instant of return and the
      error. *)
  Connect : Host -> Context -> AddrInfo -> Z -> option (Z * option error);
  nat_reachability : Reachability;
  nat_port_mapped : bool
}.

(** A library call the program made, with what it returned. *)
Inductive Call : Type :=
| CAbs (r : Result string)
| CStat (path : string) (e : option error)
| CGenerateKeyPair (typ : KeyType) (nbits : Z) (r : Result PrivKey)
| CMarshalPrivateKey (k : PrivKey) (r : Result bytes)
| CWriteFile (path : string) (data : bytes) (perm : Z) (e : option error)
| CReadFile (path : string) (r : Result bytes)
| CUnmarshalPrivateKey (data : bytes) (r : Result PrivKey)
| CNew (cfg : Config) (r : Result Host)
| CAddrInfoToP2pAddrs (ai : AddrInfo) (r : Result (list Multiaddr))
| CAutonatNew (ctx : Context) (h : Host) (e : option error)
| CNewMultiaddr (s : string) (r : Result Multiaddr)
| CAddrInfoFromP2pAddr (m : Multiaddr) (r : Result AddrInfo)
| CWithTimeout (parent : Context) (timeout : Z)
| CConnect (ctx : Context) (target : AddrInfo) (r : option (Z * option error))
| CNewTicker (period : Z)
| CCancel (ctx : Context).

(** The error a call returned, if it returns one at all. *)
Definition call_error (c : Call) : option error :=
  match c with
  | CAbs (Err e) => Some e
  | CStat _ e => e
  | CGenerateKeyPair _ _ (Err e) => Some e
  | CMarshalPrivateKey _ (Err e) => Some e
  | CWriteFile _ _ _ e => e
  | CReadFile _ (Err e) => Some e
  | CUnmarshalPrivateKey _ (Err e) => Some e
  | CNew _ (Err e) => Some e
  | CAddrInfoToP2pAddrs _ (Err e) => Some e
  | CAutonatNew _ _ e => e
  | CNewMultiaddr _ (Err e) => Some e
  | CAddrInfoFromP2pAddr _ (Err e) => Some e
  | CConnect _ _ (Some (_, e)) => e
  | _ => None
  end.

Definition is_stat (c : Call) : bool :=
  match c with CStat _ _ => true | _ => false end.

Definition is_generate (c : Call) : bool :=
  match c with CGenerateKeyPair _ _ _ => true | _ => false end.

(** The state the program acts on: the files, the log (each line with
    the instant it was written, as the standard logger prefixes it),
    the calls made so far in order, and the clock. *)
Record World : Type := {
  fs : gmap string File;
  logged : list (Z * string);
  calls : list Call;
  now : Z
}.

Definition M (A : Type) : Type := World -> World * Step A.

Definition ret {A} (a : A) : M A := fun w => (w, Ret a).

Definition bind {A B} (m : M A) (k : A -> M B) : M B :=
  fun w =>
    match m w with
    | (w', Ret a) => k a w'
    | (w', Exit c) => (w', Exit c)
    | (w', Blocked) => (w', Blocked)
    end.

Notation "x <- m ;; k" := (bind m (fun x => k))
  (at level 100, m at next level, right associativity).
Notation "m ;; k" := (bind m (fun _ => k))
  (at level 100, right associativity).

Definition record (c : Call) : M unit :=
  fun w => ({| fs := fs w; logged := logged w;
               calls := calls w ++ [c]; now := now w |}, Ret tt).

Definition os_Exit {A} (code : Z) : M A := fun w => (w, Exit code).

(** [log.Println]. *)
Definition log_Println (ops : list Operand) : M unit :=
  fun w => ({| fs := fs w; logged := logged w ++ [(now w, Sprintln ops)];
               calls := calls w; now := now w |}, Ret tt).

(** [log.Fatalln]: [Println], then [os.Exit(1)]. *)
Definition log_Fatalln {A} (ops : list Operand) : M A :=
  log_Println ops ;; os_Exit 1.

(** [if e != nil { log.Fatalln(e) }] after a call returning
    [(value, error)]. *)
Definition check {A} (r : Result A) : M A :=
  match r with
  | Ok a => ret a
  | Err e => log_Fatalln [OErr e]
  end.

(** The same after a call returning only an error. *)
Definition check_err (e : option error) : M unit :=
  match e with
  | None => ret tt
  | Some e => log_Fatalln [OErr e]
  end.

(** *** Operating-system calls *)

Definition stat_result (env : Env) (files : gmap string File)
    (path : string) : option error :=
  match stat_fault env with
  | Some e => Some e
  | None =>
      match files !! path with
      | Some _ => None
      | None => Some ENOENT
      end
  end.

Definition os_Stat (env : Env) (path : string) : M (option error) :=
  fun w =>
    let e := stat_result env (fs w) path in
    (record (CStat path e) ;; ret e) w.

(** The file [ioutil.WriteFile] leaves: a new file gets [perm] less
    the bits of the umask, an existing one is truncated and keeps its
    mode. *)
Definition written_file (env : Env) (files : gmap string File)
    (path : string) (data : bytes) (perm : Z) : File :=
  match files !! path with
  | Some f => {| f_data := data; f_mode := f_mode f |}
  | None => {| f_data := data; f_mode := Z.ldiff perm (umask env) |}
  end.

Definition ioutil_WriteFile (env : Env) (path : string) (data : bytes)
    (perm : Z) : M (option error) :=
  fun w =>
    match write_fault env with
    | Some e => (record (CWriteFile path data perm (Some e)) ;; ret (Some e)) w
    | None =>
        let w' := {| fs := <[path := written_file env (fs w) path data perm]> (fs w);
                     logged := logged w; calls := calls w; now := now w |} in
        (record (CWriteFile path data perm None) ;; ret None) w'
    end.

Definition read_result (env : Env) (files : gmap string File)
    (path : string) : Result bytes :=
  match read_fault env with
  | Some e => Err e
  | None =>
      match files !! path with
      | Some f => Ok (f_data f)
      | None => Err ENOENT
      end
  end.

Definition ioutil_ReadFile (env : Env) (path : string) : M (Result bytes) :=
  fun w =>
    let r := read_result env (fs w) path in
    (record (CReadFile path r) ;; ret r) w.

(** A library call whose result only depends on its arguments. *)
Definition lib {A} (r : A) (c : A -> Call) : M A :=
  record (c r) ;; ret r.

(** *** Identity (main.go, lines 45-75) *)

Definition resolve_identity (env : Env) (dir : string) : M PrivKey :=
  let privateKeyPath := filepath_Join dir "private.key" in
  e <- os_Stat env privateKeyPath ;;
  if IsNotExist e then
    r <- lib (GenerateKeyPair env Ed25519 (-1)) (CGenerateKeyPair Ed25519 (-1)) ;;
    privateKey <- check r ;;
    r <- lib (MarshalPrivateKey env privateKey) (CMarshalPrivateKey privateKey) ;;
    privateKeyBytes <- check r ;;
    e <- ioutil_WriteFile env privateKeyPath privateKeyBytes os_ModePerm ;;
    check_err e ;;
    ret privateKey
  else
    r <- ioutil_ReadFile env privateKeyPath ;;
    privateKeyBytes <- check r ;;
    r <- lib (UnmarshalPrivateKey env privateKeyBytes)
             (CUnmarshalPrivateKey privateKeyBytes) ;;
    privateKey <- check r ;;
    ret privateKey.

(** *** The host (lines 77-118) *)

Definition host_config (env : Env) (ctx : Context) (privateKey : PrivKey)
    : Config :=
  {| cfg_ctx := ctx;
     cfg_Identity := privateKey;
     cfg_ListenAddrStrings := ListenAddrStrings (flag_port env);
     cfg_Security := [TLS];
     cfg_Transports := [QUIC; DefaultTransports];
     cfg_ConnectionManager := NewConnManager 100 400 Minute;
     cfg_NATPortMap := true;
     cfg_Routing_dht := true;
     cfg_EnableAutoRelay := true |}.

Definition build_host (env : Env) (ctx : Context) (privateKey : PrivKey)
    : M Host :=
  let cfg := host_config env ctx privateKey in
  r <- lib (libp2p_New env cfg) (CNew cfg) ;;
  h <- check r ;;
  let ai := {| ai_ID := h_ID h; ai_Addrs := h_Addrs h |} in
  r <- lib (AddrInfoToP2pAddrs env ai) (CAddrInfoToP2pAddrs ai) ;;
  myAddrs <- check r ;;
  log_Println [OStr "我的地址:"; OList myAddrs] ;;
  ret h.

(** *** AutoNAT (lines 120-124) *)

Definition start_autonat (env : Env) (ctx : Context) (h : Host) : M unit :=
  e <- lib (autonat_New env ctx h) (CAutonatNew ctx h) ;;
  check_err e.

(** *** Bootstrap (lines 126-140) *)

(** [context.WithTimeout]: the deadline is the present instant plus
    the timeout. *)
Definition context_WithTimeout (parent : Context) (timeout : Z) : M Context :=
  fun w => (record (CWithTimeout parent timeout) ;;
            ret (TimerCtx parent (now w + timeout))) w.

(** [h.Connect]: the clock moves to the instant the call returns. *)
Definition host_Connect (env : Env) (h : Host) (ctx : Context)
    (target : AddrInfo) : M (option error) :=
  fun w =>
    let r := Connect env h ctx target (now w) in
    match r with
    | None => (record (CConnect ctx target r) ;; (fun w' => (w', Blocked))) w
    | Some (t, e) =>
        (record (CConnect ctx target r) ;; ret e)
          {| fs := fs w; logged := logged w; calls := calls w;
             now := Z.max (now w) t |}
    end.

Definition bootstrap (env : Env) (ctx : Context) (h : Host) : M Context :=
  r <- lib (NewMultiaddr env bootstrap_addr) (CNewMultiaddr bootstrap_addr) ;;
  multiAddr <- check r ;;
  r <- lib (AddrInfoFromP2pAddr env multiAddr) (CAddrInfoFromP2pAddr multiAddr) ;;
  addrInfo <- check r ;;
  lc <- context_WithTimeout ctx bootstrap_timeout ;;
  e <- host_Connect env h lc addrInfo ;;
  check_err e ;;
  ret lc.

(** *** Startup (lines 30-140) *)

(** The directory of the executable (lines 35-39). *)
Definition program_dir (env : Env) : M string :=
  r <- lib (exe_dir env) CAbs ;;
  check r.

Definition startup (env : Env) : M (Context * Context * Host) :=
  log_Println [OStr "启动引导节点"; OInt (flag_port env)] ;;
  dir <- program_dir env ;;
  let ctx := CancelCtx Background in
  privateKey <- resolve_identity env dir ;;
  h <- build_host env ctx privateKey ;;
  start_autonat env ctx h ;;
  lc <- bootstrap env ctx h ;;
  ret (ctx, lc, h).

(** *** The status reporter (lines 143-154) *)

(** One turn of the [for { select { ... } }] loop; [true] when the
    goroutine returns.  The tick is the one due at [next]. *)
Definition reporter_turn (next : Z) (c : SelectCase) : M bool :=
  match c with
  | CaseDone => ret true
  | CaseTick npeers =>
      fun w =>
        (log_Println [OStr "节点数量"; OInt (Z.of_nat npeers)] ;; ret false)
          {| fs := fs w; logged := logged w; calls := calls w;
             now := Z.max (now w) next |}
  end.

(** The goroutine from the instant the ticker is made, over the select
    outcomes it meets.  It is blocked in [select] when they run out. *)
Fixpoint reporter_loop (period next : Z) (cs : list SelectCase) : M unit :=
  match cs with
  | [] => fun w => (w, Blocked)
  | c :: rest =>
      stop <- reporter_turn next c ;;
      if (stop : bool) then ret tt else reporter_loop period (next + period) rest
  end.

Definition reporter (cs : list SelectCase) : M unit :=
  fun w =>
    (record (CNewTicker report_period) ;;
     reporter_loop report_period (now w + report_period) cs) w.

(** *** Running and shutdown (lines 143-160) *)

(** The main goroutine waits for a signal while the reporter takes the
    ticks.  On the signal it logs, returns, and the deferred cancels run
    (last deferred first); the process ends with status 0. *)
Fixpoint running (ctx lc : Context) (period next : Z) (evs : list Event)
    : M unit :=
  match evs with
  | [] => fun w => (w, Blocked)
  | EvTick npeers :: rest =>
      reporter_turn next (CaseTick npeers) ;;
      running ctx lc period (next + period) rest
  | EvSignal t :: _ =>
      fun w =>
        (log_Println [OStr "收到信号, 关闭程序"] ;;
         record (CCancel lc) ;;
         record (CCancel ctx) ;;
         os_Exit 0)
          {| fs := fs w; logged := logged w; calls := calls w;
             now := Z.max (now w) t |}
  end.

Definition main (env : Env) (evs : list Event) : M unit :=
  s <- startup env ;;
  let '(ctx, lc, _) := s in
  fun w =>
    (record (CNewTicker report_period) ;;
     running ctx lc report_period (now w + report_period) evs) w.

End Model.

(** ** Statements about runs *)

Section Vocabulary.
Context {PrivKey : Type}.

(** The error of a call that the program checks: every error but the
    one of [os.Stat], which only selects a branch. *)
Definition checked_error (c : @Call PrivKey) : option error :=
  if is_stat c then None else call_error c.

(** [peer.IDFromPrivateKey]: the node ID is computed from the public
    key of the pair. *)
Definition IDFromPrivateKey {PubKey : Type} (GetPublic : PrivKey -> PubKey)
    (IDFromPublicKey : PubKey -> Result PeerID) (k : PrivKey)
    : Result PeerID :=
  IDFromPublicKey (GetPublic k).

(** A computation treats every checked error as fatal: the calls it
    makes return no checked error, except that the last call of a run
    ending in [os.Exit] returned one, the exit status is then 1 and the
    error is the last line logged. *)
Definition fatal_on_error {A : Type} (m : @M PrivKey A) : Prop :=
  forall w, exists new,
    calls (m w).1 = calls w ++ new /\
    match (m w).2 with
    | Exit code =>
        code = 1 /\
        exists c e,
          last new = Some c /\
          checked_error c = Some e /\
          Forall (fun c' => checked_error c' = None) (removelast new) /\
          last (logged (m w).1) = Some (now (m w).1, error_string e)
    | _ => Forall (fun c' => checked_error c' = None) new
    end.

(** What the program passes to a library call, whatever the run: the
    arguments that the source fixes. *)
Definition call_spec (env : @Env PrivKey) (c : @Call PrivKey) : Prop :=
  match c with
  | CGenerateKeyPair typ nbits _ => typ = Ed25519 /\ nbits = -1
  | CWriteFile _ _ perm _ => perm = os_ModePerm
  | CNew cfg r =>
      (exists k, cfg = host_config env (CancelCtx Background) k) /\
      r = libp2p_New env cfg
  | CAutonatNew ctx _ _ => ctx = CancelCtx Background
  | CNewMultiaddr s _ => s = bootstrap_addr
  | CWithTimeout parent timeout =>
      parent = CancelCtx Background /\ timeout = bootstrap_timeout
  | CConnect ctx target r =>
      exists h t0 ma,
        ctx = TimerCtx (CancelCtx Background) (t0 + bootstrap_timeout) /\
        NewMultiaddr env bootstrap_addr = Ok ma /\
        AddrInfoFromP2pAddr env ma = Ok target /\
        r = Connect env h ctx target t0
  | CNewTicker period => period = report_period
  | _ => True
  end.

(** [Connect] returns once the deadline of its context has passed. *)
Definition honours_deadline (env : @Env PrivKey) : Prop :=
  forall h ctx target t d,
    Deadline ctx = Some d ->
    exists t' e, Connect env h ctx target t = Some (t', e) /\ t' <= Z.max t d.

(** Every call a computation makes is made as [call_spec] says, and the
    computation does not block when [Connect] honours deadlines. *)
Definition well_called {A : Type} (env : @Env PrivKey) (m : @M PrivKey A)
    : Prop :=
  forall w, exists new,
    calls (m w).1 = calls w ++ new /\
    Forall (call_spec env) new /\
    (honours_deadline env -> (m w).2 <> Blocked).

(** No dial to [target] ever succeeds. *)
Definition unreachable (env : @Env PrivKey) (target : AddrInfo) : Prop :=
  forall h ctx t t', Connect env h ctx target t <> Some (t', None).

(** The same environment with another NAT outcome. *)
Definition with_nat_status (env : @Env PrivKey) (r : Reachability)
    (mapped : bool) : Env :=
  {| flag_port := flag_port env;
     exe_dir := exe_dir env;
     umask := umask env;
     stat_fault := stat_fault env;
     read_fault := read_fault env;
     write_fault := write_fault env;
     GenerateKeyPair := GenerateKeyPair env;
     MarshalPrivateKey := MarshalPrivateKey env;
     UnmarshalPrivateKey := UnmarshalPrivateKey env;
     libp2p_New := libp2p_New env;
     AddrInfoToP2pAddrs := AddrInfoToP2pAddrs env;
     autonat_New := autonat_New env;
     NewMultiaddr := NewMultiaddr env;
     AddrInfoFromP2pAddr := AddrInfoFromP2pAddr env;
     Connect := Connect env;
     nat_reachability := r;
     nat_port_mapped := mapped |}.

(** The log lines of successive ticks, one per peer count of [ns], the
    first tick due at [next] and each following one a period later. *)
Fixpoint tick_lines (period next : Z) (ns : list nat) : list (Z * string) :=
  match ns with
  | [] => []
  | n :: rest =>
      (next, "节点数量 " +:+ FormatInt (Z.of_nat n))
        :: tick_lines period (next + period) rest
  end.
End Vocabulary.

(** ** A sample environment

    Keys are byte strings; the sample codec puts a two-byte header before
    the key and refuses anything else. *)

Definition sample_marshal (k : bytes) : Result bytes :=
  Ok (Byte.x08 :: Byte.x01 :: k).

Definition sample_unmarshal (b : bytes) : Result bytes :=
  match b with
  | Byte.x08 :: Byte.x01 :: k => Ok k
  | _ => Err (ErrMsg "malformed private key")
  end.

Definition sample_key : bytes := [Byte.x2a; Byte.x07; Byte.xc3].

Definition sample_target : AddrInfo :=
  {| ai_ID := "QmaCpDMGvV2BGHeYERUEnRQAwe3N8SzbUtfsmvsqQLuvuJ";
     ai_Addrs := ["/ip4/104.131.131.82/tcp/4001"] |}.

(** The path of the key file when the executable is in [/opt/node]. *)
Definition key_path : string := "/opt/node/private.key".

(** The serialized sample key. *)
Definition sample_file_bytes : bytes := Byte.x08 :: Byte.x01 :: sample_key.

(** Toy derivation of the public key and of the node ID. *)
Definition sample_GetPublic (k : bytes) : bytes := rev k.

Definition sample_IDFromPublicKey (pk : bytes) : Result PeerID :=
  Ok ("Qm" +:+ FormatInt (Z.of_nat (length pk))).

Definition sample_host : Host :=
  {| h_ID := "QmSelf"; h_Addrs := ListenAddrStrings default_port |}.

(** A target that never answers: the dial ends when the deadline of the
    context passes, and never without one. *)
Definition silent_connect (h : Host) (ctx : Context) (target : AddrInfo)
    (t : Z) : option (Z * option error) :=
  match Deadline ctx with
  | Some d => Some (Z.max t d, Some DeadlineExceeded)
  | None => None
  end.

(** A target that answers after a quarter of a second. *)
Definition quick_connect (h : Host) (ctx : Context) (target : AddrInfo)
    (t : Z) : option (Z * option error) :=
  Some (t + 250 * Millisecond, None).

Definition sample_env (stat_f read_f autonat_e : option error)
    (connect : Host -> Context -> AddrInfo -> Z -> option (Z * option error))
    : @Env bytes :=
  {| flag_port := default_port;
     exe_dir := Ok "/opt/node";
     umask := 18;
     stat_fault := stat_f;
     read_fault := read_f;
     write_fault := None;
     GenerateKeyPair := fun _ _ => Ok sample_key;
     MarshalPrivateKey := sample_marshal;
     UnmarshalPrivateKey := sample_unmarshal;
     libp2p_New := fun cfg =>
       Ok {| h_ID := "QmSelf"; h_Addrs := cfg_ListenAddrStrings cfg |};
     AddrInfoToP2pAddrs := fun ai =>
       Ok (map (fun a => a +:+ "/p2p/" +:+ ai_ID ai) (ai_Addrs ai));
     autonat_New := fun _ _ => autonat_e;
     NewMultiaddr := fun s => Ok s;
     AddrInfoFromP2pAddr := fun _ => Ok sample_target;
     Connect := connect;
     nat_reachability := ReachabilityPrivate;
     nat_port_mapped := false |}.

Definition good_env : @Env bytes := sample_env None None None quick_connect.

(** The bootstrap target never answers. *)
Definition silent_env : @Env bytes := sample_env None None None silent_connect.

(** [autonat.New] fails. *)
Definition autonat_failing_env : @Env bytes :=
  sample_env None None (Some (ErrMsg "autonat: construction failed"))
    quick_connect.

(** [os.Stat] fails with a permission error. *)
Definition stat_denied_env : @Env bytes :=
  sample_env (Some EACCES) None None quick_connect.

Definition empty_world : @World bytes :=
  {| fs := ∅; logged := []; calls := []; now := 0 |}.

(** A world whose key file holds [data]. *)
Definition world_with_key (data : bytes) : @World bytes :=
  {| fs := {[ "/opt/node/private.key" := {| f_data := data; f_mode := 493 |} ]};
     logged := []; calls := []; now := 0 |}.

(** ** Whole runs: order of the calls, files, signals *)

Section RunVocabulary.
Context {PrivKey : Type}.

(** The place of a call in the text of [main]: the line order of the
    statements, the two branches of the identity step side by side, and
    of the two deferred cancels the one of the dial context first. *)
Definition call_rank (c : @Call PrivKey) : nat :=
  match c with
  | CAbs _ => 0
  | CStat _ _ => 1
  | CGenerateKeyPair _ _ _ => 2
  | CReadFile _ _ => 2
  | CMarshalPrivateKey _ _ => 3
  | CUnmarshalPrivateKey _ _ => 3
  | CWriteFile _ _ _ _ => 4
  | CNew _ _ => 5
  | CAddrInfoToP2pAddrs _ _ => 6
  | CAutonatNew _ _ _ => 7
  | CNewMultiaddr _ _ => 8
  | CAddrInfoFromP2pAddr _ _ => 9
  | CWithTimeout _ _ => 10
  | CConnect _ _ _ => 11
  | CNewTicker _ => 12
  | CCancel (TimerCtx _ _) => 13
  | CCancel _ => 14
  end.

(** Calls made in the order of the text, none twice. *)
Definition in_order (l : list (@Call PrivKey)) : Prop :=
  StronglySorted (fun a b => (call_rank a < call_rank b)%nat) l.

(** The calls of a computation are in order and lie between two places
    of the text. *)
Definition ranked {A : Type} (lo hi : nat) (m : @M PrivKey A) : Prop :=
  forall w, exists new,
    calls (m w).1 = calls w ++ new /\
    in_order new /\
    Forall (fun c => (lo <= call_rank c < hi)%nat) new.

(** A computation that leaves every file as it is. *)
Definition keeps_files {A : Type} (m : @M PrivKey A) : Prop :=
  forall w, fs (m w).1 = fs w.

(** Every call a computation makes satisfies [P]. *)
Definition calls_all {A : Type} (P : @Call PrivKey -> Prop)
    (m : @M PrivKey A) : Prop :=
  forall w, exists new,
    calls (m w).1 = calls w ++ new /\ Forall P new.

(** A call of [libp2p.New] is given the key [k] as identity. *)
Definition new_with_identity (k : PrivKey) (c : @Call PrivKey) : Prop :=
  match c with
  | CNew cfg _ => cfg_Identity cfg = k
  | _ => True
  end.

Definition is_signal (ev : Event) : bool :=
  match ev with EvSignal _ => true | EvTick _ => false end.


(** The calls of the identity step when it returns the key [k]: the
    generating branch, or the loading branch. *)
Definition identity_calls (path : string) (k : PrivKey)
    (l : list (@Call PrivKey)) : Prop :=
  (exists b,
     l = [CStat path (Some ENOENT);
          CGenerateKeyPair Ed25519 (-1) (Ok k);
          CMarshalPrivateKey k (Ok b);
          CWriteFile path b os_ModePerm None]) \/
  (exists e data,
     IsNotExist e = false /\
     l = [CStat path e; CReadFile path (Ok data);
          CUnmarshalPrivateKey data (Ok k)]).

End RunVocabulary.

(** The sample run: what a successful startup of [good_env] returns. *)
Definition sample_ctx : Context := CancelCtx Background.

Definition sample_lc : Context := TimerCtx sample_ctx (16 * Second).

(** The world a restart finds: the files a first run of [good_env] left. *)
Definition sample_restart_world : @World bytes :=
  {| fs := fs (main good_env [EvSignal 0] empty_world).1;
     logged := []; calls := []; now := 0 |}.

Definition sample_config : @Config bytes :=
  host_config good_env sample_ctx sample_key.

(** * Properties *)

Example listen_default :
  ListenAddrStrings default_port =
  ["/ip4/0.0.0.0/tcp/6666"; "/ip4/0.0.0.0/udp/6666/quic"].
Proof. reflexivity. Qed.

Lemma ParseInt_FormatInt (n : Z) : ParseInt (FormatInt n) = Some n.
Proof.
  unfold ParseInt, FormatInt.
  rewrite NilZero.isi.
  - simpl. now rewrite DecimalZ.of_to.
  - destruct n as [|p|p]; simpl; try discriminate.
    intros H. injection H as H. now apply DecimalPos.Unsigned.to_uint_nonnil in H.
  - destruct n as [|p|p]; simpl; try discriminate.
    intros H. injection H as H. now apply DecimalPos.Unsigned.to_uint_nonnil in H.
Qed.


Section Properties.
Context {PrivKey : Type}.
Implicit Types (env : @Env PrivKey) (w : @World PrivKey).

(** Unfolds the monad and the primitive calls. *)
Ltac run :=
  unfold resolve_identity, program_dir, build_host, start_autonat, bootstrap,
    os_Stat, ioutil_WriteFile, ioutil_ReadFile, host_Connect,
    context_WithTimeout, lib, check, check_err, log_Fatalln, log_Println,
    os_Exit, record, bind, ret in *;
  simpl in *.

Ltac trace_eq := simpl; rewrite <- ?app_assoc; simpl; reflexivity.

(** *** Identity resolution, branch by branch *)

Lemma resolve_absent env dir w k b :
  let path := filepath_Join dir "private.key" in
  IsNotExist (stat_result env (fs w) path) = true ->
  GenerateKeyPair env Ed25519 (-1) = Ok k ->
  MarshalPrivateKey env k = Ok b ->
  write_fault env = None ->
  resolve_identity env dir w =
    ({| fs := <[path := written_file env (fs w) path b os_ModePerm]> (fs w);
        logged := logged w;
        calls := calls w ++
          [CStat path (Some ENOENT);
           CGenerateKeyPair Ed25519 (-1) (Ok k);
           CMarshalPrivateKey k (Ok b);
           CWriteFile path b os_ModePerm None];
        now := now w |}, Ret k).
Proof.
  intros path Hs Hg Hm Hw. run. fold path.
  destruct (stat_result env (fs w) path) as [[]|] eqn:E; try discriminate.
  simpl. rewrite Hg. simpl. rewrite Hm. simpl. rewrite Hw. simpl.
  f_equal. f_equal. trace_eq.
Qed.

Lemma resolve_present env dir w :
  let path := filepath_Join dir "private.key" in
  let e := stat_result env (fs w) path in
  IsNotExist e = false ->
  resolve_identity env dir w =
    match read_result env (fs w) path with
    | Err re =>
        ({| fs := fs w;
            logged := logged w ++ [(now w, error_string re)];
            calls := calls w ++ [CStat path e; CReadFile path (Err re)];
            now := now w |}, Exit 1)
    | Ok data =>
        match UnmarshalPrivateKey env data with
        | Ok k =>
            ({| fs := fs w;
                logged := logged w;
                calls := calls w ++
                  [CStat path e; CReadFile path (Ok data);
                   CUnmarshalPrivateKey data (Ok k)];
                now := now w |}, Ret k)
        | Err de =>
            ({| fs := fs w;
                logged := logged w ++ [(now w, error_string de)];
                calls := calls w ++
                  [CStat path e; CReadFile path (Ok data);
                   CUnmarshalPrivateKey data (Err de)];
                now := now w |}, Exit 1)
        end
    end.
Proof.
  intros path e He. run. fold path. fold e. rewrite He. simpl.
  destruct (read_result env (fs w) path) as [data|re]; simpl.
  - destruct (UnmarshalPrivateKey env data) as [k|de]; simpl;
      f_equal; f_equal; trace_eq.
  - f_equal. f_equal. trace_eq.
Qed.

(** In the generating branch the first call after [os.Stat] is
    [GenerateKeyPair]. *)
Lemma resolve_generating env dir w :
  let path := filepath_Join dir "private.key" in
  let e := stat_result env (fs w) path in
  IsNotExist e = true ->
  exists rest,
    calls (resolve_identity env dir w).1 =
      calls w ++
        CStat path e
        :: CGenerateKeyPair Ed25519 (-1) (GenerateKeyPair env Ed25519 (-1))
        :: rest.
Proof.
  intros path e He. run. fold path. fold e. rewrite He. simpl.
  destruct (GenerateKeyPair env Ed25519 (-1)) as [k|ge]; simpl.
  - destruct (MarshalPrivateKey env k) as [b|me]; simpl.
    + destruct (write_fault env) as [we|]; simpl;
        eexists; trace_eq.
    + eexists; trace_eq.
  - eexists; trace_eq.
Qed.

Lemma stat_result_absent env (files : gmap string File) path :
  stat_fault env = None -> files !! path = None ->
  stat_result env files path = Some ENOENT.
Proof. unfold stat_result. now intros -> ->. Qed.

Lemma stat_result_present env (files : gmap string File) path f :
  stat_fault env = None -> files !! path = Some f ->
  stat_result env files path = None.
Proof. unfold stat_result. now intros -> ->. Qed.

Lemma read_result_present env (files : gmap string File) path f :
  read_fault env = None -> files !! path = Some f ->
  read_result env files path = Ok (f_data f).
Proof. unfold read_result. now intros -> ->. Qed.

(** C3.  Identity resolution at startup, when [os.Stat] meets no fault
    of its own: with no key file a key is generated, serialized and
    written to the path, and it is the identity; with a key file the
    file is read and its bytes decoded into the identity; bytes that do
    not decode end the process with status 1 after logging the
    error. *)
Theorem identity_resolution_cases env dir w :
  let path := filepath_Join dir "private.key" in
  stat_fault env = None ->
  (fs w !! path = None ->
   forall k b,
     GenerateKeyPair env Ed25519 (-1) = Ok k ->
     MarshalPrivateKey env k = Ok b ->
     write_fault env = None ->
     exists w',
       resolve_identity env dir w = (w', Ret k) /\
       f_data <$> (fs w' !! path) = Some b /\
       calls w' = calls w ++
         [CStat path (Some ENOENT);
          CGenerateKeyPair Ed25519 (-1) (Ok k);
          CMarshalPrivateKey k (Ok b);
          CWriteFile path b os_ModePerm None]) /\
  (forall f,
     fs w !! path = Some f ->
     read_fault env = None ->
     (forall k,
        UnmarshalPrivateKey env (f_data f) = Ok k ->
        exists w',
          resolve_identity env dir w = (w', Ret k) /\
          fs w' = fs w /\
          calls w' = calls w ++
            [CStat path None; CReadFile path (Ok (f_data f));
             CUnmarshalPrivateKey (f_data f) (Ok k)]) /\
     (forall de,
        UnmarshalPrivateKey env (f_data f) = Err de ->
        exists w',
          resolve_identity env dir w = (w', Exit 1) /\
          last (logged w') = Some (now w, error_string de))).
Proof.
  intros path Hstat. split.
  - intros Habs k b Hg Hm Hw.
    pose proof (stat_result_absent env (fs w) path Hstat Habs) as Hs.
    pose proof (resolve_absent env dir w k b) as Hra. simpl in Hra.
    fold path in Hra. rewrite Hs in Hra.
    specialize (Hra eq_refl Hg Hm Hw).
    eexists. split; [exact Hra|].
    simpl. split; [|reflexivity].
    rewrite lookup_insert_eq. simpl.
    unfold written_file. now rewrite Habs.
  - intros f Hf Hr.
    pose proof (stat_result_present env (fs w) path f Hstat Hf) as Hs.
    pose proof (read_result_present env (fs w) path f Hr Hf) as Hrd.
    pose proof (resolve_present env dir w) as Hp. simpl in Hp.
    fold path in Hp. rewrite Hs, Hrd in Hp. specialize (Hp eq_refl).
    split.
    + intros k Hk. rewrite Hk in Hp. eexists. split; [exact Hp|]. now simpl.
    + intros de Hd. rewrite Hd in Hp. eexists. split; [exact Hp|].
      simpl. now rewrite last_snoc.
Qed.

(** C4, as the code has it.  When the key file is absent and the new
    key is written, [ioutil.WriteFile] is called with [os.ModePerm]
    (octal 777), and the created file has every permission bit the
    umask leaves: it is owner-only exactly when the umask clears all
    group and other bits. *)
Theorem key_file_written_with_ModePerm env dir w k b :
  let path := filepath_Join dir "private.key" in
  stat_fault env = None ->
  fs w !! path = None ->
  GenerateKeyPair env Ed25519 (-1) = Ok k ->
  MarshalPrivateKey env k = Ok b ->
  write_fault env = None ->
  exists w' pre,
    resolve_identity env dir w = (w', Ret k) /\
    calls w' = pre ++ [CWriteFile path b 511 None] /\
    fs w' !! path =
      Some {| f_data := b; f_mode := Z.ldiff 511 (umask env) |} /\
    owner_only (Z.ldiff 511 (umask env)) = Z.eqb (Z.ldiff 63 (umask env)) 0.
Proof.
  intros path Hstat Habs Hg Hm Hw.
  pose proof (stat_result_absent env (fs w) path Hstat Habs) as Hs.
  pose proof (resolve_absent env dir w k b) as Hra. simpl in Hra.
  fold path in Hra. rewrite Hs in Hra.
  specialize (Hra eq_refl Hg Hm Hw).
  eexists. exists (calls w ++
    [CStat path (Some ENOENT); CGenerateKeyPair Ed25519 (-1) (Ok k);
     CMarshalPrivateKey k (Ok b)]).
  split; [|split; [|split]].
  - exact Hra.
  - simpl. rewrite <- app_assoc. reflexivity.
  - simpl. rewrite lookup_insert_eq. unfold written_file. now rewrite Habs.
  - unfold owner_only. f_equal.
    apply Z.bits_inj'. intros n Hn.
    rewrite Z.land_spec, !Z.ldiff_spec.
    change 63 with (Z.ones 6). change 511 with (Z.ones 9).
    rewrite !Z.testbit_ones_nonneg by lia.
    destruct (Z.ltb_spec n 6), (Z.ltb_spec n 9); try lia;
      destruct (Z.testbit (umask env) n); reflexivity.
Qed.

(** C10.  The key is generated only when [os.IsNotExist] holds of the
    error of [os.Stat]; on every other outcome, a nil error or any other
    error, the file is read and decoded, and a failure of the read or of
    the decoding ends the process with status 1 after logging it. *)
Theorem keygen_only_when_not_exist env dir w :
  let path := filepath_Join dir "private.key" in
  let e := stat_result env (fs w) path in
  let out := resolve_identity env dir w in
  exists new,
    calls out.1 = calls w ++ CStat path e :: new /\
    existsb is_generate new = IsNotExist e /\
    (IsNotExist e = false ->
     let rd := read_result env (fs w) path in
     match rd with
     | Err re =>
         new = [CReadFile path rd] /\
         out.2 = Exit 1 /\
         last (logged out.1) = Some (now w, error_string re)
     | Ok data =>
         let dec := UnmarshalPrivateKey env data in
         new = [CReadFile path rd; CUnmarshalPrivateKey data dec] /\
         match dec with
         | Ok k => out.2 = Ret k
         | Err de =>
             out.2 = Exit 1 /\
             last (logged out.1) = Some (now w, error_string de)
         end
     end).
Proof.
  intros path e out.
  destruct (IsNotExist e) eqn:He.
  - destruct (resolve_generating env dir w He) as [rest Hrest].
    fold path in Hrest. fold e in Hrest.
    eexists. split; [exact Hrest|]. split; [reflexivity|discriminate].
  - pose proof (resolve_present env dir w He) as Hp.
    fold path in Hp. fold e in Hp. subst out.
    destruct (read_result env (fs w) path) as [data|re] eqn:Hrd.
    + destruct (UnmarshalPrivateKey env data) as [k|de] eqn:Hdec;
        rewrite Hp; simpl; eexists; (split; [reflexivity|]);
        (split; [reflexivity|]); intros _; rewrite ?Hdec;
        repeat split; try reflexivity; now rewrite last_snoc.
    + rewrite Hp; simpl; eexists; (split; [reflexivity|]).
      split; [reflexivity|]. intros _.
      repeat split; try reflexivity; now rewrite last_snoc.
Qed.

(** *** Errors during startup *)

Lemma fatal_on_error_ret {A} (a : A) : fatal_on_error (@ret PrivKey A a).
Proof. intros w. exists []. simpl. now rewrite app_nil_r. Qed.

Lemma fatal_on_error_Println ops : fatal_on_error (@log_Println PrivKey ops).
Proof. intros w. exists []. simpl. now rewrite app_nil_r. Qed.

Lemma fatal_on_error_bind {A B} (m : @M PrivKey A) (k : A -> @M PrivKey B) :
  fatal_on_error m -> (forall a, fatal_on_error (k a)) ->
  fatal_on_error (bind m k).
Proof.
  intros Hm Hk w. unfold bind.
  destruct (Hm w) as (new1 & Hc1 & H1).
  destruct (m w) as [w1 [a|code|]] eqn:E; simpl in *.
  - destruct (Hk a w1) as (new2 & Hc2 & H2).
    destruct (k a w1) as [w2 r2] eqn:E2; simpl in *.
    exists (new1 ++ new2). split.
    + now rewrite Hc2, Hc1, app_assoc.
    + destruct r2 as [b|code|].
      * now apply Forall_app.
      * destruct H2 as (-> & c & e & Hl & He & Hpre & Hlog).
        split; [reflexivity|]. exists c, e.
        assert (new2 <> []) by (intros ->; discriminate).
        repeat split; try assumption.
        -- now rewrite last_app, Hl.
        -- rewrite removelast_app by assumption. now apply Forall_app.
      * now apply Forall_app.
  - exists new1. now split.
  - exists new1. now split.
Qed.

Ltac clean_calls := repeat constructor.

Ltac fatal_exit c e :=
  split; [reflexivity|]; exists c, e;
  repeat split; simpl; rewrite ?last_snoc; try reflexivity; clean_calls.

Lemma fatal_on_error_program_dir env : fatal_on_error (program_dir env).
Proof.
  intros w. run. destruct (exe_dir env) as [d|e]; simpl.
  - eexists. split; [trace_eq|]. clean_calls.
  - eexists. split; [trace_eq|]. fatal_exit (@CAbs PrivKey (Err e)) e.
Qed.

Lemma fatal_on_error_resolve_identity env dir :
  fatal_on_error (resolve_identity env dir).
Proof.
  intros w. run.
  set (path := filepath_Join dir "private.key").
  set (e := stat_result env (fs w) path).
  destruct (IsNotExist e); simpl.
  - destruct (GenerateKeyPair env Ed25519 (-1)) as [k|ge]; simpl.
    + destruct (MarshalPrivateKey env k) as [b|me]; simpl.
      * destruct (write_fault env) as [we|]; simpl.
        -- eexists. split; [trace_eq|].
           fatal_exit (@CWriteFile PrivKey path b os_ModePerm (Some we)) we.
        -- eexists. split; [trace_eq|]. clean_calls.
      * eexists. split; [trace_eq|].
        fatal_exit (CMarshalPrivateKey k (Err me)) me.
    + eexists. split; [trace_eq|].
      fatal_exit (@CGenerateKeyPair PrivKey Ed25519 (-1) (Err ge)) ge.
  - destruct (read_result env (fs w) path) as [data|re]; simpl.
    + destruct (UnmarshalPrivateKey env data) as [k|de]; simpl.
      * eexists. split; [trace_eq|]. clean_calls.
      * eexists. split; [trace_eq|].
        fatal_exit (@CUnmarshalPrivateKey PrivKey data (Err de)) de.
    + eexists. split; [trace_eq|].
      fatal_exit (@CReadFile PrivKey path (Err re)) re.
Qed.

Lemma fatal_on_error_build_host env ctx k :
  fatal_on_error (build_host env ctx k).
Proof.
  intros w. run.
  set (cfg := host_config env ctx k).
  destruct (libp2p_New env cfg) as [h|e]; simpl.
  - set (ai := {| ai_ID := h_ID h; ai_Addrs := h_Addrs h |}).
    destruct (AddrInfoToP2pAddrs env ai) as [addrs|e]; simpl.
    + eexists. split; [trace_eq|]. clean_calls.
    + eexists. split; [trace_eq|].
      fatal_exit (@CAddrInfoToP2pAddrs PrivKey ai (Err e)) e.
  - eexists. split; [trace_eq|]. fatal_exit (CNew cfg (Err e)) e.
Qed.

Lemma fatal_on_error_start_autonat env ctx h :
  fatal_on_error (start_autonat env ctx h).
Proof.
  intros w. run. destruct (autonat_New env ctx h) as [e|]; simpl.
  - eexists. split; [trace_eq|].
    fatal_exit (@CAutonatNew PrivKey ctx h (Some e)) e.
  - eexists. split; [trace_eq|]. clean_calls.
Qed.

Lemma fatal_on_error_bootstrap env ctx h :
  fatal_on_error (bootstrap env ctx h).
Proof.
  intros w. run.
  destruct (NewMultiaddr env bootstrap_addr) as [ma|e]; simpl.
  - destruct (AddrInfoFromP2pAddr env ma) as [ai|e]; simpl.
    + set (lc := TimerCtx ctx (now w + bootstrap_timeout)).
      destruct (Connect env h lc ai (now w)) as [[t [e|]]|] eqn:Hc; simpl.
      * eexists. split; [trace_eq|].
        fatal_exit (@CConnect PrivKey lc ai (Some (t, Some e))) e.
      * eexists. split; [trace_eq|]. clean_calls.
      * eexists. split; [trace_eq|]. clean_calls.
    + eexists. split; [trace_eq|].
      fatal_exit (@CAddrInfoFromP2pAddr PrivKey ma (Err e)) e.
  - eexists. split; [trace_eq|].
    fatal_exit (@CNewMultiaddr PrivKey bootstrap_addr (Err e)) e.
Qed.

Lemma fatal_on_error_startup env : fatal_on_error (startup env).
Proof.
  unfold startup.
  apply fatal_on_error_bind; [apply fatal_on_error_Println|intros _].
  apply fatal_on_error_bind; [apply fatal_on_error_program_dir|intros dir].
  apply fatal_on_error_bind; [apply fatal_on_error_resolve_identity|intros k].
  apply fatal_on_error_bind; [apply fatal_on_error_build_host|intros h].
  apply fatal_on_error_bind; [apply fatal_on_error_start_autonat|intros _].
  apply fatal_on_error_bind; [apply fatal_on_error_bootstrap|intros lc].
  apply fatal_on_error_ret.
Qed.

(** *** The arguments of the calls *)

Lemma well_called_ret {A} env (a : A) : well_called env (@ret PrivKey A a).
Proof.
  intros w. exists []. simpl. rewrite app_nil_r. repeat split; [constructor|].
  discriminate.
Qed.

Lemma well_called_Println env ops : well_called env (@log_Println PrivKey ops).
Proof.
  intros w. exists []. simpl. rewrite app_nil_r. repeat split; [constructor|].
  discriminate.
Qed.

Lemma well_called_bind {A B} env (m : @M PrivKey A) (k : A -> @M PrivKey B) :
  well_called env m -> (forall a, well_called env (k a)) ->
  well_called env (bind m k).
Proof.
  intros Hm Hk w. unfold bind.
  destruct (Hm w) as (new1 & Hc1 & H1 & Hb1).
  destruct (m w) as [w1 [a|code|]] eqn:E; simpl in *.
  - destruct (Hk a w1) as (new2 & Hc2 & H2 & Hb2).
    destruct (k a w1) as [w2 r2] eqn:E2; simpl in *.
    exists (new1 ++ new2). split; [now rewrite Hc2, Hc1, app_assoc|].
    split; [now apply Forall_app|].
    intros Hh. specialize (Hb2 Hh). now destruct r2.
  - exists new1. split; [assumption|]. split; [assumption|].
    intros _. discriminate.
  - exists new1. split; [assumption|]. split; [assumption|].
    intros Hh. now destruct (Hb1 Hh).
Qed.

Ltac spec_calls := repeat (constructor; simpl; try tauto; eauto).

Lemma well_called_program_dir env : well_called env (program_dir env).
Proof.
  intros w. run. destruct (exe_dir env) as [d|e]; simpl;
    eexists; (split; [trace_eq|]); (split; [spec_calls|discriminate]).
Qed.

Lemma well_called_resolve_identity env dir :
  well_called env (resolve_identity env dir).
Proof.
  intros w. run.
  set (path := filepath_Join dir "private.key").
  destruct (IsNotExist (stat_result env (fs w) path)); simpl.
  - destruct (GenerateKeyPair env Ed25519 (-1)) as [k|ge]; simpl.
    + destruct (MarshalPrivateKey env k) as [b|me]; simpl.
      * destruct (write_fault env) as [we|]; simpl;
          eexists; (split; [trace_eq|]); (split; [spec_calls|discriminate]).
      * eexists; (split; [trace_eq|]); (split; [spec_calls|discriminate]).
    + eexists; (split; [trace_eq|]); (split; [spec_calls|discriminate]).
  - destruct (read_result env (fs w) path) as [data|re]; simpl.
    + destruct (UnmarshalPrivateKey env data) as [k|de]; simpl;
        eexists; (split; [trace_eq|]); (split; [spec_calls|discriminate]).
    + eexists; (split; [trace_eq|]); (split; [spec_calls|discriminate]).
Qed.

Lemma well_called_build_host env k :
  well_called env (build_host env (CancelCtx Background) k).
Proof.
  intros w. run.
  set (cfg := host_config env (CancelCtx Background) k).
  assert (call_spec env (CNew cfg (libp2p_New env cfg))) as Hnew
    by (split; [now exists k|reflexivity]).
  destruct (libp2p_New env cfg) as [h|e]; simpl.
  - set (ai := {| ai_ID := h_ID h; ai_Addrs := h_Addrs h |}).
    destruct (AddrInfoToP2pAddrs env ai) as [addrs|e]; simpl;
      eexists; (split; [trace_eq|]);
      (split; [repeat (constructor; try exact Hnew); exact I|discriminate]).
  - eexists; (split; [trace_eq|]);
      (split; [repeat (constructor; try exact Hnew)|discriminate]).
Qed.

Lemma well_called_start_autonat env h :
  well_called env (start_autonat env (CancelCtx Background) h).
Proof.
  intros w. run. destruct (autonat_New env (CancelCtx Background) h);
    simpl; eexists; (split; [trace_eq|]); (split; [spec_calls|discriminate]).
Qed.

Lemma well_called_bootstrap env h :
  well_called env (bootstrap env (CancelCtx Background) h).
Proof.
  intros w. run.
  destruct (NewMultiaddr env bootstrap_addr) as [ma|e] eqn:Hma; simpl.
  - destruct (AddrInfoFromP2pAddr env ma) as [ai|e] eqn:Hai; simpl.
    + set (lc := TimerCtx (CancelCtx Background) (now w + bootstrap_timeout)).
      assert (call_spec env (CConnect lc ai (Connect env h lc ai (now w))))
        as Hconn by (exists h, (now w), ma; now repeat split).
      destruct (Connect env h lc ai (now w)) as [[t [e|]]|] eqn:Hc; simpl.
      * eexists; (split; [trace_eq|]).
        split; [repeat (constructor; try exact Hconn); simpl; tauto|].
        discriminate.
      * eexists; (split; [trace_eq|]).
        split; [repeat (constructor; try exact Hconn); simpl; tauto|].
        discriminate.
      * eexists; (split; [trace_eq|]).
        split; [repeat (constructor; try exact Hconn); simpl; tauto|].
        intros Hh _.
        destruct (Hh h lc ai (now w) (now w + bootstrap_timeout) eq_refl)
          as (t' & e' & Hsome & _).
        congruence.
    + eexists; (split; [trace_eq|]); (split; [spec_calls|discriminate]).
  - eexists; (split; [trace_eq|]); (split; [spec_calls|discriminate]).
Qed.

Lemma well_called_startup env : well_called env (startup env).
Proof.
  unfold startup.
  apply well_called_bind; [apply well_called_Println|intros _].
  apply well_called_bind; [apply well_called_program_dir|intros dir].
  apply well_called_bind; [apply well_called_resolve_identity|intros k].
  apply well_called_bind; [apply well_called_build_host|intros h].
  apply well_called_bind; [apply well_called_start_autonat|intros _].
  apply well_called_bind; [apply well_called_bootstrap|intros lc].
  apply well_called_ret.
Qed.

Lemma last_removelast {A} (l : list A) (x : A) :
  last l = Some x -> l = removelast l ++ [x].
Proof.
  destruct (decide (l = [])) as [->|Hne]; [discriminate|].
  destruct (exists_last Hne) as (l' & y & ->).
  rewrite last_snoc, removelast_last. now intros [= ->].
Qed.

Lemma running_calls ctx lc period evs :
  forall next w, exists rest,
    calls (running ctx lc period next evs w).1 = calls w ++ rest /\
    Forall (fun c => exists c', c = CCancel c') rest.
Proof.
  induction evs as [|[n|t] evs IH]; intros next w; simpl.
  - exists []. rewrite app_nil_r. split; [reflexivity|constructor].
  - unfold bind, reporter_turn, log_Println, ret; simpl.
    match goal with |- context [running _ _ _ ?nx evs ?w1] =>
      destruct (IH nx w1) as (rest & Hrest & Hall);
      destruct (running ctx lc period nx evs w1) as [w2 [[]|c|]] eqn:E
    end; simpl in *; exists rest; now split.
  - eexists. run. split; [trace_eq|]. repeat constructor; eauto.
Qed.

(** What [main] does after [startup]: nothing when startup did not
    return, else it makes the ticker and, at most, the deferred cancels. *)
Lemma main_after_startup env evs w :
  match (startup env w).2 with
  | Ret _ =>
      exists rest,
        calls (main env evs w).1 =
          calls (startup env w).1 ++ CNewTicker report_period :: rest /\
        Forall (fun c => exists c', c = CCancel c') rest
  | Exit code => main env evs w = ((startup env w).1, Exit code)
  | Blocked => main env evs w = ((startup env w).1, Blocked)
  end.
Proof.
  unfold main, bind.
  destruct (startup env w) as [ws [[[ctx lc] h]|code|]]; simpl;
    try reflexivity.
  unfold record; simpl.
  match goal with |- context [running _ _ _ ?nx evs ?w1] =>
    destruct (running_calls ctx lc report_period evs nx w1)
      as (rest & Hr & Hall)
  end.
  exists rest. rewrite Hr. simpl. split; [now rewrite <- app_assoc|exact Hall].
Qed.

Lemma main_calls env evs w :
  exists new,
    calls (main env evs w).1 = calls w ++ new /\
    Forall (call_spec env) new.
Proof.
  destruct (well_called_startup env w) as (new & Hc & Hall & _).
  pose proof (main_after_startup env evs w) as Hm.
  destruct ((startup env w).2) as [s|code|].
  - destruct Hm as (rest & Hr & Hcancel).
    exists (new ++ CNewTicker report_period :: rest).
    split; [now rewrite Hr, Hc, app_assoc|].
    apply Forall_app. split; [exact Hall|].
    constructor; [reflexivity|].
    eapply Forall_impl; [exact Hcancel|]. now intros c [c' ->].
  - exists new. rewrite Hm. now split.
  - exists new. rewrite Hm. now split.
Qed.

(** In a whole run every call of [ioutil.WriteFile] asks for
    [os.ModePerm], and the connection manager is made with the marks 100
    and 400 and a grace period of one minute. *)
Lemma main_fixed_arguments env evs w new :
  calls (main env evs w).1 = calls w ++ new ->
  (forall path data perm e,
     In (CWriteFile path data perm e) new -> perm = 511) /\
  (forall cfg r,
     In (CNew cfg r) new ->
     cfg_ConnectionManager cfg =
       {| LowWater := 100; HighWater := 400; GracePeriod := 60 * Second |}).
Proof.
  intros Hc.
  destruct (main_calls env evs w) as (new' & Hc' & Hall).
  rewrite Hc in Hc'. apply app_inv_head in Hc'. subst new'.
  rewrite Forall_forall in Hall. split.
  - intros path data perm e Hin.
    exact (Hall _ (proj2 (list_elem_of_In _ _) Hin)).
  - intros cfg r Hin.
    destruct (Hall _ (proj2 (list_elem_of_In _ _) Hin)) as [[k ->] _].
    reflexivity.
Qed.

(** In a whole run too a checked error ends the process with status 1. *)
Lemma main_checked_error_fatal env evs w new c e :
  calls (main env evs w).1 = calls w ++ new ->
  In c new -> checked_error c = Some e ->
  (main env evs w).2 = Exit 1.
Proof.
  intros Hc Hin He.
  destruct (fatal_on_error_startup env w) as (ns & Hcs & H).
  pose proof (main_after_startup env evs w) as Hm.
  destruct ((startup env w).2) as [s|code|].
  - exfalso. destruct Hm as (rest & Hr & Hcancel).
    rewrite Hr, Hcs, <- app_assoc in Hc. apply app_inv_head in Hc. subst new.
    apply in_app_or in Hin. destruct Hin as [Hin|[<-|Hin]].
    + rewrite Forall_forall in H. apply list_elem_of_In in Hin.
      specialize (H c Hin). congruence.
    + discriminate.
    + rewrite Forall_forall in Hcancel. apply list_elem_of_In in Hin.
      destruct (Hcancel c Hin) as [c' ->]. discriminate.
  - rewrite Hm. simpl. now destruct H as [-> _].
  - exfalso. rewrite Hm in Hc. simpl in Hc. rewrite Hcs in Hc.
    apply app_inv_head in Hc. subst new.
    rewrite Forall_forall in H. apply list_elem_of_In in Hin.
    specialize (H c Hin). congruence.
Qed.

(** C6.  Every error the program checks during startup is fatal: the
    call that returned it is the last call made, the error is the last
    line logged and the process ends with status 1; the exit status of
    a failed startup is never 0; and the running phase (the ticker of
    the status reporter) starts only when startup returned, so that no
    checked call failed, the bootstrap dial included. *)
Theorem startup_errors_are_fatal env w :
  let out := startup env w in
  exists new,
    calls out.1 = calls w ++ new /\
    (forall c e,
       In c new -> checked_error c = Some e ->
       out.2 = Exit 1 /\ last new = Some c /\
       last (logged out.1) = Some (now out.1, error_string e)) /\
    (forall code, out.2 = Exit code -> code <> 0) /\
    (forall evs,
       match out.2 with
       | Ret _ =>
           (forall c, In c new -> checked_error c = None) /\
           exists rest,
             calls (main env evs w).1 =
               calls out.1 ++ CNewTicker report_period :: rest
       | Exit code => main env evs w = (out.1, Exit code)
       | Blocked => main env evs w = (out.1, Blocked)
       end).
Proof.
  intros out. subst out.
  destruct (fatal_on_error_startup env w) as (new & Hc & H).
  exists new. split; [exact Hc|].
  unfold main, bind.
  destruct (startup env w) as [ws [[[ctx lc] h]|code|]] eqn:E; simpl in *.
  - repeat split.
    + exfalso. rewrite Forall_forall in H. apply list_elem_of_In in H0.
      specialize (H c H0). congruence.
    + exfalso. rewrite Forall_forall in H. apply list_elem_of_In in H0.
      specialize (H c H0). congruence.
    + exfalso. rewrite Forall_forall in H. apply list_elem_of_In in H0.
      specialize (H c H0). congruence.
    + discriminate.
    + intros c Hin. rewrite Forall_forall in H. apply list_elem_of_In in Hin.
      now apply H.
    + unfold record; simpl.
      match goal with |- context [running _ _ _ ?nx evs ?w1] =>
        destruct (running_calls ctx lc report_period evs nx w1)
          as (rest & Hr & _)
      end.
      exists rest. rewrite Hr. simpl. now rewrite <- app_assoc.
  - destruct H as (-> & c0 & e0 & Hl & He & Hpre & Hlog).
    split; [|split; [intros code [= <-]; discriminate|reflexivity]].
    intros c e Hin Hce.
    rewrite (last_removelast new c0 Hl) in Hin.
    apply in_app_or in Hin. destruct Hin as [Hin|[<-|[]]].
    + rewrite Forall_forall in Hpre. apply list_elem_of_In in Hin.
      specialize (Hpre c Hin). congruence.
    + rewrite Hce in He. injection He as ->. now repeat split.
  - split; [|split; [discriminate|reflexivity]].
    intros c e Hin Hce. exfalso.
    rewrite Forall_forall in H. apply list_elem_of_In in Hin.
    specialize (H c Hin). congruence.
Qed.

(** *** NAT *)

(** C7, as the code has it.  The outcome of NAT traversal (the
    reachability found, the port mapping) is never read, so it changes
    nothing in a run; but an error of [autonat.New] at startup is fatal:
    it is logged and the process ends with status 1. *)
Theorem nat_outcome_ignored_autonat_error_fatal env w :
  (forall r mapped evs,
     main (with_nat_status env r mapped) evs w = main env evs w) /\
  (forall ctx h e,
     autonat_New env ctx h = Some e ->
     start_autonat env ctx h w =
       ({| fs := fs w;
           logged := logged w ++ [(now w, error_string e)];
           calls := calls w ++ [CAutonatNew ctx h (Some e)];
           now := now w |}, Exit 1)) /\
  (forall new ctx h e,
     calls (startup env w).1 = calls w ++ new ->
     In (CAutonatNew ctx h (Some e)) new ->
     (startup env w).2 = Exit 1 /\
     last (logged (startup env w).1) =
       Some (now (startup env w).1, error_string e)).
Proof.
  split; [|split].
  - intros r mapped evs. reflexivity.
  - intros ctx h e He. run. now rewrite He.
  - intros new ctx h e Hc Hin.
    destruct (fatal_on_error_startup env w) as (new' & Hc' & H).
    rewrite Hc in Hc'. apply app_inv_head in Hc'. subst new'.
    destruct ((startup env w).2) as [s|code|].
    + rewrite Forall_forall in H. apply list_elem_of_In in Hin.
      specialize (H _ Hin). discriminate.
    + destruct H as (-> & c0 & e0 & Hl & He & Hpre & Hlog).
      split; [reflexivity|].
      rewrite (last_removelast new c0 Hl) in Hin.
      apply in_app_or in Hin. destruct Hin as [Hin|[Heq|[]]].
      * rewrite Forall_forall in Hpre. apply list_elem_of_In in Hin.
        specialize (Hpre _ Hin). discriminate.
      * subst c0. simpl in He. injection He as <-. exact Hlog.
    + rewrite Forall_forall in H. apply list_elem_of_In in Hin.
      specialize (H _ Hin). discriminate.
Qed.

(** *** The bootstrap dial *)

Lemma Deadline_TimerCtx_le ctx d :
  exists d', Deadline (TimerCtx ctx d) = Some d' /\ d' <= d.
Proof.
  simpl. destruct (Deadline ctx) as [d0|]; eexists; split;
    try reflexivity; lia.
Qed.

Lemma bootstrap_dial_stage env ctx h w ma target :
  honours_deadline env ->
  NewMultiaddr env bootstrap_addr = Ok ma ->
  AddrInfoFromP2pAddr env ma = Ok target ->
  unreachable env target ->
  exists w' t e,
    let lc := TimerCtx ctx (now w + 16 * Second) in
    bootstrap env ctx h w = (w', Exit 1) /\
    calls w' = calls w ++
      [CNewMultiaddr bootstrap_addr (Ok ma);
       CAddrInfoFromP2pAddr ma (Ok target);
       CWithTimeout ctx (16 * Second);
       CConnect lc target (Some (t, Some e))] /\
    derived_from ctx lc /\
    t <= now w + 16 * Second /\
    now w' <= now w + 16 * Second /\
    last (logged w') = Some (now w', error_string e).
Proof.
  intros Hhon Hma Hai Hun.
  set (lc := TimerCtx ctx (now w + 16 * Second)).
  destruct (Deadline_TimerCtx_le ctx (now w + 16 * Second)) as (d & Hd & Hle).
  fold lc in Hd.
  destruct (Hhon h lc target (now w) d Hd) as (t & oe & Hc & Ht).
  destruct oe as [e|]; [|now apply Hun in Hc].
  eexists. exists t, e. run. rewrite Hma. simpl. rewrite Hai. simpl.
  change bootstrap_timeout with (16 * Second). fold lc. rewrite Hc. simpl.
  assert (0 <= 16 * Second) as Hpos
    by (unfold Second, Millisecond, Microsecond, Nanosecond; lia).
  repeat split.
  - trace_eq.
  - right. destruct ctx; now left.
  - lia.
  - simpl. lia.
  - simpl. now rewrite last_snoc.
Qed.

(** C5.  The bootstrap dial goes to the fixed target under a context
    derived from the shared one with a timeout of 16 seconds.  With a
    [Connect] that returns once the deadline of its context has passed:
    when no dial to the target succeeds, the call returns an error no
    later than 16 seconds after the context was made, the error is logged
    and the process exits with status 1; this holds of the bootstrap step
    alone and of every [Connect] call of a whole run; and startup never
    blocks. *)
Theorem bootstrap_dial_bounded env :
  honours_deadline env ->
  (forall ctx h w ma target,
     NewMultiaddr env bootstrap_addr = Ok ma ->
     AddrInfoFromP2pAddr env ma = Ok target ->
     unreachable env target ->
     exists w' t e,
       let lc := TimerCtx ctx (now w + 16 * Second) in
       bootstrap env ctx h w = (w', Exit 1) /\
       calls w' = calls w ++
         [CNewMultiaddr bootstrap_addr (Ok ma);
          CAddrInfoFromP2pAddr ma (Ok target);
          CWithTimeout ctx (16 * Second);
          CConnect lc target (Some (t, Some e))] /\
       derived_from ctx lc /\
       t <= now w + 16 * Second /\
       now w' <= now w + 16 * Second /\
       last (logged w') = Some (now w', error_string e)) /\
  (forall evs w new ctx target r,
     calls (main env evs w).1 = calls w ++ new ->
     In (CConnect ctx target r) new ->
     unreachable env target ->
     exists ma t0 t e,
       NewMultiaddr env bootstrap_addr = Ok ma /\
       AddrInfoFromP2pAddr env ma = Ok target /\
       ctx = TimerCtx (CancelCtx Background) (t0 + 16 * Second) /\
       r = Some (t, Some e) /\
       t <= t0 + 16 * Second /\
       (main env evs w).2 = Exit 1) /\
  (forall w, (startup env w).2 <> Blocked).
Proof.
  intros Hhon. split; [|split].
  - intros ctx h w ma target. now apply bootstrap_dial_stage.
  - intros evs w new ctx target r Hc Hin Hun.
    destruct (main_calls env evs w) as (new' & Hc' & Hall).
    rewrite Hc in Hc'. apply app_inv_head in Hc'. subst new'.
    rewrite Forall_forall in Hall.
    pose proof (Hall _ (proj2 (list_elem_of_In _ _) Hin)) as Hspec.
    destruct Hspec as (h & t0 & ma & -> & Hma & Hai & ->).
    change bootstrap_timeout with (16 * Second) in *.
    set (lc := TimerCtx (CancelCtx Background) (t0 + 16 * Second)) in *.
    destruct (Hhon h lc target t0 (t0 + 16 * Second) eq_refl)
      as (t & oe & Hconn & Ht).
    destruct oe as [e|]; [|now apply Hun in Hconn].
    assert (0 <= 16 * Second) as Hpos
      by (unfold Second, Millisecond, Microsecond, Nanosecond; lia).
    exists ma, t0, t, e. rewrite Hconn in *.
    repeat split; try assumption; try lia.
    eapply main_checked_error_fatal; [exact Hc|exact Hin|reflexivity].
  - intros w.
    destruct (well_called_startup env w) as (new & _ & _ & Hb). now apply Hb.
Qed.

(** *** The status reporter *)

Lemma tick_lines_lookup period ns :
  forall next (i : nat) n,
    ns !! i = Some n ->
    tick_lines period next ns !! i =
      Some (next + Z.of_nat i * period,
            "节点数量 " +:+ FormatInt (Z.of_nat n)).
Proof.
  induction ns as [|m ns IH]; intros next i n Hi; [discriminate|].
  destruct i as [|i]; simpl in *.
  - injection Hi as ->. do 2 f_equal. lia.
  - rewrite (IH _ _ _ Hi). do 2 f_equal. lia.
Qed.

Lemma reporter_loop_ticks period ns rest :
  0 <= period ->
  forall next w,
    now w <= next ->
    exists w',
      reporter_loop period next (map CaseTick ns ++ CaseDone :: rest) w
        = (w', Ret tt) /\
      fs w' = fs w /\ calls w' = calls w /\
      logged w' = logged w ++ tick_lines period next ns.
Proof.
  intros Hp. induction ns as [|n ns IH]; intros next w Hnow; simpl.
  - exists w. run. now rewrite app_nil_r.
  - unfold bind at 1. unfold reporter_turn, log_Println, bind, ret. simpl.
    rewrite Z.max_r by exact Hnow.
    match goal with |- context [reporter_loop _ ?nx _ ?w1] =>
      destruct (IH nx w1) as (w' & Hrun & Hfs & Hcalls & Hlog);
        [simpl; lia|]
    end.
    rewrite Hrun. exists w'. simpl in *.
    repeat split; try assumption.
    rewrite Hlog, <- app_assoc. reflexivity.
Qed.

Lemma reporter_loop_blocked period ns :
  0 <= period ->
  forall next w,
    now w <= next ->
    exists w',
      reporter_loop period next (map CaseTick ns) w = (w', Blocked) /\
      logged w' = logged w ++ tick_lines period next ns.
Proof.
  intros Hp. induction ns as [|n ns IH]; intros next w Hnow; simpl.
  - exists w. now rewrite app_nil_r.
  - unfold bind at 1. unfold reporter_turn, log_Println, bind, ret. simpl.
    rewrite Z.max_r by exact Hnow.
    match goal with |- context [reporter_loop _ ?nx _ ?w1] =>
      destruct (IH nx w1) as (w' & Hrun & Hlog); [simpl; lia|]
    end.
    rewrite Hrun. exists w'. simpl in *. split; [reflexivity|].
    rewrite Hlog, <- app_assoc. reflexivity.
Qed.

Lemma running_ticks ctx lc period ns :
  0 <= period ->
  forall next w,
    now w <= next ->
    exists w',
      running ctx lc period next (map EvTick ns) w = (w', Blocked) /\
      logged w' = logged w ++ tick_lines period next ns.
Proof.
  intros Hp. induction ns as [|n ns IH]; intros next w Hnow; simpl.
  - exists w. now rewrite app_nil_r.
  - unfold bind at 1. unfold reporter_turn, log_Println, bind, ret. simpl.
    rewrite Z.max_r by exact Hnow.
    match goal with |- context [running _ _ _ ?nx _ ?w1] =>
      destruct (IH nx w1) as (w' & Hrun & Hlog); [simpl; lia|]
    end.
    rewrite Hrun. exists w'. simpl in *. split; [reflexivity|].
    rewrite Hlog, <- app_assoc. reflexivity.
Qed.

Lemma report_period_pos : 0 <= report_period.
Proof. unfold report_period, Second, Millisecond, Microsecond, Nanosecond. lia. Qed.

(** C8.  The reporter makes a ticker of 10 seconds and, tick after
    tick, logs the number of peers of the peerstore at the instant of
    the tick, the i-th tick coming (i+1) times 10 seconds after the
    ticker was made; when select takes the done case of the shared
    context the goroutine returns, and until then it stays in the loop.
    In [main] the reporter starts when startup has returned, after the
    bootstrap dial, and not otherwise. *)
Theorem reporter_ticks_until_done (ns : list nat) w :
  (forall rest, exists w',
     reporter (map CaseTick ns ++ CaseDone :: rest) w = (w', Ret tt) /\
     calls w' = calls w ++ [CNewTicker (10 * Second)] /\
     logged w' =
       logged w ++ tick_lines (10 * Second) (now w + 10 * Second) ns) /\
  (exists w',
     reporter (map CaseTick ns) w = (w', Blocked) /\
     logged w' =
       logged w ++ tick_lines (10 * Second) (now w + 10 * Second) ns) /\
  (forall (i : nat) n,
     ns !! i = Some n ->
     tick_lines (10 * Second) (now w + 10 * Second) ns !! i =
       Some (now w + (Z.of_nat i + 1) * (10 * Second),
             "节点数量 " +:+ FormatInt (Z.of_nat n))) /\
  (forall env,
     match startup env w with
     | (ws, Ret _) =>
         exists w',
           main env (map EvTick ns) w = (w', Blocked) /\
           logged w' =
             logged ws ++ tick_lines (10 * Second) (now ws + 10 * Second) ns
     | (ws, Exit code) =>
         forall evs, main env evs w = (ws, Exit code)
     | (ws, Blocked) =>
         forall evs, main env evs w = (ws, Blocked)
     end).
Proof.
  pose proof report_period_pos as Hp.
  change (10 * Second) with report_period.
  split; [|split; [|split]].
  - intros rest. unfold reporter, bind at 1, record. simpl.
    match goal with |- context [reporter_loop _ ?nx _ ?w1] =>
      destruct (reporter_loop_ticks report_period ns rest Hp nx w1)
        as (w' & Hrun & Hfs & Hcalls & Hlog); [simpl; lia|]
    end.
    exists w'. rewrite Hrun. simpl in *. now repeat split.
  - unfold reporter, bind at 1, record. simpl.
    match goal with |- context [reporter_loop _ ?nx _ ?w1] =>
      destruct (reporter_loop_blocked report_period ns Hp nx w1)
        as (w' & Hrun & Hlog); [simpl; lia|]
    end.
    exists w'. rewrite Hrun. simpl in *. now split.
  - intros i n Hi. rewrite (tick_lines_lookup _ _ _ _ _ Hi).
    do 2 f_equal. lia.
  - intros env.
    destruct (startup env w) as [ws [[[ctx lc] h]|code|]] eqn:E;
      [|intros evs; unfold main; unfold bind at 1; now rewrite E..].
    unfold main. unfold bind at 1. rewrite E.
    unfold bind at 1, record. simpl.
    match goal with |- context [running _ _ _ ?nx _ ?w1] =>
      destruct (running_ticks ctx lc report_period ns Hp nx w1)
        as (w' & Hrun & Hlog); [simpl; lia|]
    end.
    exists w'. rewrite Hrun. simpl in *. now split.
Qed.

(** *** Listen addresses *)

(** C9.  For every value of the port flag the host is configured with
    exactly two listen addresses: a TCP address and a UDP address with
    QUIC, both on all IPv4 interfaces and both carrying the decimal text
    of the same port, from which the port reads back; every call of
    [libp2p.New] in a run is made with these two addresses; with the
    default port they are the addresses of port 6666. *)
Theorem listen_addresses_from_port env :
  let p := flag_port env in
  let addrs :=
    ["/ip4/0.0.0.0/tcp/" +:+ FormatInt p;
     "/ip4/0.0.0.0/udp/" +:+ FormatInt p +:+ "/quic"] in
  (forall ctx (k : PrivKey),
     cfg_ListenAddrStrings (host_config env ctx k) = addrs) /\
  (forall evs w new cfg r,
     calls (main env evs w).1 = calls w ++ new ->
     In (CNew cfg r) new ->
     cfg_ListenAddrStrings cfg = addrs) /\
  ParseInt (FormatInt p) = Some p /\
  ListenAddrStrings default_port =
    ["/ip4/0.0.0.0/tcp/6666"; "/ip4/0.0.0.0/udp/6666/quic"].
Proof.
  intros p addrs. split; [reflexivity|]. split; [|split].
  - intros evs w new cfg r Hc Hin.
    destruct (main_calls env evs w) as (new' & Hc' & Hall).
    rewrite Hc in Hc'. apply app_inv_head in Hc'. subst new'.
    rewrite Forall_forall in Hall.
    destruct (Hall _ (proj2 (list_elem_of_In _ _) Hin)) as [[k ->] _].
    reflexivity.
  - apply ParseInt_FormatInt.
  - reflexivity.
Qed.

(** *** Persistence of the identity *)

(** A run that took the generating branch and returned a key wrote the
    serialized key to the key file. *)
Lemma resolve_generated_inv env dir w w' k :
  let path := filepath_Join dir "private.key" in
  IsNotExist (stat_result env (fs w) path) = true ->
  resolve_identity env dir w = (w', Ret k) ->
  exists b,
    GenerateKeyPair env Ed25519 (-1) = Ok k /\
    MarshalPrivateKey env k = Ok b /\
    fs w' = <[path := written_file env (fs w) path b os_ModePerm]> (fs w).
Proof.
  intros path He. unfold resolve_identity, os_Stat, bind at 1, record, ret.
  simpl. fold path. unfold bind at 1. simpl. rewrite He.
  unfold lib, check, check_err, ioutil_WriteFile, log_Fatalln, log_Println,
    os_Exit, record, bind, ret. simpl.
  destruct (GenerateKeyPair env Ed25519 (-1)) as [k0|ge] eqn:Hg; simpl;
    [|discriminate].
  destruct (MarshalPrivateKey env k0) as [b|me] eqn:Hm; simpl;
    [|discriminate].
  destruct (write_fault env) as [we|]; simpl; [discriminate|].
  intros [= <- <-]. exists b. now repeat split.
Qed.

Section NodeID.
Context {PubKey : Type}.
Variable GetPublic : PrivKey -> PubKey.
Variable IDFromPublicKey : PubKey -> Result PeerID.

(** C2.  A first run finds no key file, generates a key, serializes
    it and writes it to the key file.  A second run, with a decoder
    that inverts the encoder of the first and no I/O fault, started on
    the files the first run left, reads and decodes the same key, and
    the node ID derived from it is the node ID derived from the
    original key. *)
Theorem identity_roundtrip env1 env2 dir w1 w1' w2 k :
  let path := filepath_Join dir "private.key" in
  IsNotExist (stat_result env1 (fs w1) path) = true ->
  resolve_identity env1 dir w1 = (w1', Ret k) ->
  (forall k0 b,
     MarshalPrivateKey env1 k0 = Ok b ->
     UnmarshalPrivateKey env2 b = Ok k0) ->
  fs w2 = fs w1' ->
  stat_fault env2 = None ->
  read_fault env2 = None ->
  exists w2' k' b,
    MarshalPrivateKey env1 k = Ok b /\
    f_data <$> (fs w2 !! path) = Some b /\
    resolve_identity env2 dir w2 = (w2', Ret k') /\
    k' = k /\
    IDFromPrivateKey GetPublic IDFromPublicKey k' =
      IDFromPrivateKey GetPublic IDFromPublicKey k.
Proof.
  intros path Hne Hrun Hcodec Hfs Hstat Hread.
  destruct (resolve_generated_inv env1 dir w1 w1' k Hne Hrun)
    as (b & Hg & Hm & Hw).
  fold path in Hw.
  set (f := written_file env1 (fs w1) path b os_ModePerm) in Hw.
  assert (fs w2 !! path = Some f) as Hf
    by (rewrite Hfs, Hw; apply lookup_insert_eq).
  assert (f_data f = b) as Hdata
    by (unfold f, written_file; now destruct (fs w1 !! path)).
  pose proof (resolve_present env2 dir w2) as Hp. simpl in Hp.
  fold path in Hp.
  rewrite (stat_result_present env2 (fs w2) path f Hstat Hf) in Hp.
  rewrite (read_result_present env2 (fs w2) path f Hread Hf) in Hp.
  rewrite Hdata, (Hcodec k b Hm) in Hp. specialize (Hp eq_refl).
  eexists. exists k, b. repeat split; try assumption.
  - now rewrite Hf, <- Hdata.
  - exact Hp.
Qed.
End NodeID.

(** ** More of [main]: order of the calls, files, shutdown *)

(** *** The calls come in the order of the text *)

Lemma ranked_ret {A} lo hi (a : A) : ranked lo hi (@ret PrivKey A a).
Proof.
  intros w. exists []. simpl. rewrite app_nil_r.
  repeat split; constructor.
Qed.

Lemma ranked_Println lo hi ops : ranked lo hi (@log_Println PrivKey ops).
Proof.
  intros w. exists []. simpl. rewrite app_nil_r.
  repeat split; constructor.
Qed.

Lemma ranked_bind {A B} lo mid hi (m : @M PrivKey A) (k : A -> @M PrivKey B) :
  (lo <= mid <= hi)%nat ->
  ranked lo mid m -> (forall a, ranked mid hi (k a)) ->
  ranked lo hi (bind m k).
Proof.
  intros Hlm Hm Hk w. unfold bind.
  destruct (Hm w) as (new1 & Hc1 & Ho1 & Hr1).
  assert (Forall (fun c => (lo <= call_rank c < hi)%nat) new1) as Hr1'
    by (eapply Forall_impl; [exact Hr1|]; simpl; intros; lia).
  destruct (m w) as [w1 [a|code|]] eqn:E; simpl in *.
  - destruct (Hk a w1) as (new2 & Hc2 & Ho2 & Hr2).
    destruct (k a w1) as [w2 r2] eqn:E2; simpl in *.
    exists (new1 ++ new2). split; [now rewrite Hc2, Hc1, app_assoc|]. split.
    + apply StronglySorted_app_2; try assumption.
      intros x1 x2 H1 H2. rewrite Forall_forall in Hr1, Hr2.
      specialize (Hr1 _ H1). specialize (Hr2 _ H2). simpl in *. lia.
    + apply Forall_app. split; [exact Hr1'|].
      eapply Forall_impl; [exact Hr2|]. simpl; intros; lia.
  - exists new1. now repeat split.
  - exists new1. now repeat split.
Qed.

Ltac ranked_calls :=
  split; [unfold in_order; repeat (constructor; simpl; try lia)
         |repeat (constructor; simpl; try lia)].

Lemma ranked_program_dir env : ranked 0 1 (program_dir env).
Proof.
  intros w. run. destruct (exe_dir env) as [d|e]; simpl;
    eexists; (split; [trace_eq|]); ranked_calls.
Qed.

Lemma ranked_resolve_identity env dir : ranked 1 5 (resolve_identity env dir).
Proof.
  intros w. run.
  set (path := filepath_Join dir "private.key").
  destruct (IsNotExist (stat_result env (fs w) path)); simpl.
  - destruct (GenerateKeyPair env Ed25519 (-1)) as [k|ge]; simpl.
    + destruct (MarshalPrivateKey env k) as [b|me]; simpl.
      * destruct (write_fault env) as [we|]; simpl;
          eexists; (split; [trace_eq|]); ranked_calls.
      * eexists; (split; [trace_eq|]); ranked_calls.
    + eexists; (split; [trace_eq|]); ranked_calls.
  - destruct (read_result env (fs w) path) as [data|re]; simpl.
    + destruct (UnmarshalPrivateKey env data) as [k|de]; simpl;
        eexists; (split; [trace_eq|]); ranked_calls.
    + eexists; (split; [trace_eq|]); ranked_calls.
Qed.

Lemma ranked_build_host env ctx k : ranked 5 7 (build_host env ctx k).
Proof.
  intros w. run.
  set (cfg := host_config env ctx k).
  destruct (libp2p_New env cfg) as [h|e]; simpl.
  - set (ai := {| ai_ID := h_ID h; ai_Addrs := h_Addrs h |}).
    destruct (AddrInfoToP2pAddrs env ai) as [addrs|e]; simpl;
      eexists; (split; [trace_eq|]); ranked_calls.
  - eexists; (split; [trace_eq|]); ranked_calls.
Qed.

Lemma ranked_start_autonat env ctx h : ranked 7 8 (start_autonat env ctx h).
Proof.
  intros w. run. destruct (autonat_New env ctx h); simpl;
    eexists; (split; [trace_eq|]); ranked_calls.
Qed.

Lemma ranked_bootstrap env ctx h : ranked 8 12 (bootstrap env ctx h).
Proof.
  intros w. run.
  destruct (NewMultiaddr env bootstrap_addr) as [ma|e]; simpl.
  - destruct (AddrInfoFromP2pAddr env ma) as [ai|e]; simpl.
    + destruct (Connect env h (TimerCtx ctx (now w + bootstrap_timeout)) ai
                  (now w)) as [[t [e|]]|]; simpl;
        eexists; (split; [trace_eq|]); ranked_calls.
    + eexists; (split; [trace_eq|]); ranked_calls.
  - eexists; (split; [trace_eq|]); ranked_calls.
Qed.

Lemma ranked_startup env : ranked 0 12 (startup env).
Proof.
  unfold startup.
  apply (ranked_bind 0 0 12); [lia|apply ranked_Println|intros _].
  apply (ranked_bind 0 1 12); [lia|apply ranked_program_dir|intros dir].
  apply (ranked_bind 1 5 12); [lia|apply ranked_resolve_identity|intros k].
  apply (ranked_bind 5 7 12); [lia|apply ranked_build_host|intros h].
  apply (ranked_bind 7 8 12); [lia|apply ranked_start_autonat|intros _].
  apply (ranked_bind 8 12 12); [lia|apply ranked_bootstrap|intros lc].
  apply ranked_ret.
Qed.

(** *** What each step has done when it returns *)

Lemma program_dir_returns env w w' dir :
  program_dir env w = (w', Ret dir) ->
  exe_dir env = Ok dir /\
  w' = {| fs := fs w; logged := logged w;
          calls := calls w ++ [CAbs (Ok dir)]; now := now w |}.
Proof.
  run. destruct (exe_dir env) as [d|e]; simpl; [|discriminate].
  intros [= <- <-]. now split.
Qed.

Lemma resolve_identity_returns env dir w w' k :
  resolve_identity env dir w = (w', Ret k) ->
  exists l,
    identity_calls (filepath_Join dir "private.key") k l /\
    calls w' = calls w ++ l /\
    logged w' = logged w /\ now w' = now w.
Proof.
  run. set (path := filepath_Join dir "private.key").
  set (e := stat_result env (fs w) path).
  destruct (IsNotExist e) eqn:He; simpl.
  - destruct e as [[]|]; try discriminate.
    destruct (GenerateKeyPair env Ed25519 (-1)) as [k0|ge]; simpl;
      [|discriminate].
    destruct (MarshalPrivateKey env k0) as [b|me]; simpl; [|discriminate].
    destruct (write_fault env) as [we|]; simpl; [discriminate|].
    intros [= <- <-]. eexists. split; [left; now exists b|].
    simpl. repeat split. trace_eq.
  - destruct (read_result env (fs w) path) as [data|re]; simpl;
      [|discriminate].
    destruct (UnmarshalPrivateKey env data) as [k0|de]; simpl;
      [|discriminate].
    intros [= <- <-]. eexists. split; [right; now exists e, data|].
    simpl. repeat split. trace_eq.
Qed.

Lemma build_host_returns env ctx k w w' h :
  build_host env ctx k w = (w', Ret h) ->
  let cfg := host_config env ctx k in
  let ai := {| ai_ID := h_ID h; ai_Addrs := h_Addrs h |} in
  exists addrs,
    libp2p_New env cfg = Ok h /\
    AddrInfoToP2pAddrs env ai = Ok addrs /\
    w' = {| fs := fs w;
            logged := logged w ++
              [(now w, Sprintln [OStr "我的地址:"; OList addrs])];
            calls := calls w ++
              [CNew cfg (Ok h); CAddrInfoToP2pAddrs ai (Ok addrs)];
            now := now w |}.
Proof.
  run. destruct (libp2p_New env (host_config env ctx k)) as [h0|e]; simpl;
    [|discriminate].
  destruct (AddrInfoToP2pAddrs env
              {| ai_ID := h_ID h0; ai_Addrs := h_Addrs h0 |})
    as [addrs|e] eqn:Ha; simpl; [|discriminate].
  intros [= <- <-]. exists addrs. repeat split; [exact Ha|].
  f_equal. trace_eq.
Qed.

Lemma start_autonat_returns env ctx h w w' u :
  start_autonat env ctx h w = (w', Ret u) ->
  autonat_New env ctx h = None /\
  w' = {| fs := fs w; logged := logged w;
          calls := calls w ++ [CAutonatNew ctx h None]; now := now w |}.
Proof.
  run. destruct (autonat_New env ctx h) as [e|]; simpl; [discriminate|].
  intros [= <- _]. now split.
Qed.

Lemma bootstrap_returns env ctx h w w' lc :
  bootstrap env ctx h w = (w', Ret lc) ->
  exists ma target t,
    NewMultiaddr env bootstrap_addr = Ok ma /\
    AddrInfoFromP2pAddr env ma = Ok target /\
    lc = TimerCtx ctx (now w + bootstrap_timeout) /\
    Connect env h lc target (now w) = Some (t, None) /\
    w' = {| fs := fs w; logged := logged w;
            calls := calls w ++
              [CNewMultiaddr bootstrap_addr (Ok ma);
               CAddrInfoFromP2pAddr ma (Ok target);
               CWithTimeout ctx bootstrap_timeout;
               CConnect lc target (Some (t, None))];
            now := Z.max (now w) t |}.
Proof.
  run. destruct (NewMultiaddr env bootstrap_addr) as [ma|e]; simpl;
    [|discriminate].
  destruct (AddrInfoFromP2pAddr env ma) as [target|e] eqn:Hai; simpl;
    [|discriminate].
  destruct (Connect env h (TimerCtx ctx (now w + bootstrap_timeout)) target
              (now w)) as [[t [e|]]|] eqn:Hc; simpl; try discriminate.
  intros [= <- <-]. exists ma, target, t.
  repeat split; try assumption. f_equal. trace_eq.
Qed.

(** The steps of a startup that returns, one after the other. *)
Lemma startup_returns env w ws ctx lc h :
  startup env w = (ws, Ret (ctx, lc, h)) ->
  exists dir k w1 w2,
    ctx = CancelCtx Background /\
    exe_dir env = Ok dir /\
    fs w1 = fs w /\ logged w1 = logged w ++
      [(now w, Sprintln [OStr "启动引导节点"; OInt (flag_port env)])] /\
    calls w1 = calls w ++ [CAbs (Ok dir)] /\ now w1 = now w /\
    resolve_identity env dir w1 = (w2, Ret k) /\
    exists w3, build_host env ctx k w2 = (w3, Ret h) /\
    exists w4, start_autonat env ctx h w3 = (w4, Ret tt) /\
    bootstrap env ctx h w4 = (ws, Ret lc).
Proof.
  unfold startup. unfold bind at 1. simpl.
  unfold bind at 1.
  match goal with |- context [program_dir env ?w0] =>
    destruct (program_dir env w0) as [w1 [dir|c|]] eqn:Hdir
  end; try discriminate.
  apply program_dir_returns in Hdir. destruct Hdir as [Hdir ->].
  unfold bind at 1.
  match goal with |- context [resolve_identity env dir ?w0] =>
    set (w1 := w0);
    destruct (resolve_identity env dir w1) as [w2 [k|c|]] eqn:Hid
  end; try discriminate.
  unfold bind at 1.
  destruct (build_host env (CancelCtx Background) k w2) as [w3 [h0|c|]]
    eqn:Hh; try discriminate.
  unfold bind at 1.
  destruct (start_autonat env (CancelCtx Background) h0 w3) as [w4 [[]|c|]]
    eqn:Hn; try discriminate.
  unfold bind at 1.
  destruct (bootstrap env (CancelCtx Background) h0 w4) as [w5 [lc0|c|]]
    eqn:Hb; try discriminate.
  unfold ret. intros [= <- <- <- <-].
  exists dir, k, w1, w2. subst w1. simpl.
  repeat split; try assumption.
  exists w3. split; [assumption|]. exists w4. now split.
Qed.

(** *** The running phase and the end of the process *)

Lemma running_outcome ctx lc period evs :
  forall next w,
    fs (running ctx lc period next evs w).1 = fs w /\
    if existsb is_signal evs
    then (running ctx lc period next evs w).2 = Exit 0 /\
         calls (running ctx lc period next evs w).1 =
           calls w ++ [CCancel lc; CCancel ctx]
    else (running ctx lc period next evs w).2 = Blocked /\
         calls (running ctx lc period next evs w).1 = calls w.
Proof.
  induction evs as [|[n|t] evs IH]; intros next w; simpl.
  - now repeat split.
  - unfold bind, reporter_turn, log_Println, ret; simpl.
    match goal with |- context [running _ _ _ ?nx evs ?w1] =>
      destruct (IH nx w1) as (Hfs & Hrest);
      destruct (running ctx lc period nx evs w1) as [w2 [[]|c|]] eqn:E
    end; simpl in *; (split; [exact Hfs|]);
      destruct (existsb is_signal evs); destruct Hrest as [Hr Hc];
      try discriminate; now split.
  - run. repeat split. trace_eq.
Qed.

Lemma main_when_started env evs w ws ctx lc h :
  startup env w = (ws, Ret (ctx, lc, h)) ->
  main env evs w =
    running ctx lc report_period (now ws + report_period) evs
      {| fs := fs ws; logged := logged ws;
         calls := calls ws ++ [CNewTicker report_period]; now := now ws |}.
Proof. intros E. unfold main. unfold bind at 1. now rewrite E. Qed.

Lemma main_outcome env evs w ws r :
  startup env w = (ws, r) ->
  match r with
  | Ret (ctx, lc, _) =>
      fs (main env evs w).1 = fs ws /\
      if existsb is_signal evs
      then (main env evs w).2 = Exit 0 /\
           calls (main env evs w).1 =
             calls ws ++ [CNewTicker report_period; CCancel lc; CCancel ctx]
      else (main env evs w).2 = Blocked /\
           calls (main env evs w).1 = calls ws ++ [CNewTicker report_period]
  | Exit code => main env evs w = (ws, Exit code)
  | Blocked => main env evs w = (ws, Blocked)
  end.
Proof.
  intros E.
  destruct r as [[[ctx lc] h]|code|];
    [|unfold main; unfold bind at 1; now rewrite E..].
  rewrite (main_when_started env evs w ws ctx lc h E).
  match goal with |- context [running _ _ _ ?nx evs ?w1] =>
    destruct (running_outcome ctx lc report_period evs nx w1) as (Hfs & Hrest);
    destruct (running ctx lc report_period nx evs w1) as [w2 r2] eqn:E2
  end; simpl in *. split; [exact Hfs|].
  destruct (existsb is_signal evs); destruct Hrest as [-> ->]; split;
    try reflexivity; now rewrite <- app_assoc.
Qed.





(** *** A startup that returns *)

(** X3.  When startup returns, the calls it made are, in this order:
    the directory of the executable, the identity step in one of its two
    branches, [libp2p.New] with the key that step returned,
    [AddrInfoToP2pAddrs] and [autonat.New] on the host [libp2p.New]
    returned, the parsing of the bootstrap address and one dial, on the
    parsed target and under a timeout context of 16 seconds below the
    shared context, which succeeded. *)
Theorem startup_trace env w ws ctx lc h :
  startup env w = (ws, Ret (ctx, lc, h)) ->
  exists dir k idc addrs ma target t,
    exe_dir env = Ok dir /\
    identity_calls (filepath_Join dir "private.key") k idc /\
    ctx = CancelCtx Background /\
    lc = TimerCtx ctx (now w + 16 * Second) /\
    calls ws = calls w ++ CAbs (Ok dir) :: idc ++
      [CNew (host_config env ctx k) (Ok h);
       CAddrInfoToP2pAddrs {| ai_ID := h_ID h; ai_Addrs := h_Addrs h |}
         (Ok addrs);
       CAutonatNew ctx h None;
       CNewMultiaddr bootstrap_addr (Ok ma);
       CAddrInfoFromP2pAddr ma (Ok target);
       CWithTimeout ctx (16 * Second);
       CConnect lc target (Some (t, None))] /\
    now ws = Z.max (now w) t.
Proof.
  intros E.
  destruct (startup_returns env w ws ctx lc h E)
    as (dir & k & w1 & w2 & -> & Hdir & Hfs1 & Hlog1 & Hc1 & Hn1 & Hid
        & w3 & Hh & w4 & Hn & Hb).
  destruct (resolve_identity_returns _ _ _ _ _ Hid)
    as (idc & Hidc & Hc2 & Hlog2 & Hn2).
  destruct (build_host_returns _ _ _ _ _ _ Hh) as (addrs & _ & _ & ->).
  destruct (start_autonat_returns _ _ _ _ _ _ Hn) as (_ & ->).
  destruct (bootstrap_returns _ _ _ _ _ _ Hb)
    as (ma & target & t & _ & _ & -> & _ & ->).
  simpl. exists dir, k, idc, addrs, ma, target, t.
  change bootstrap_timeout with (16 * Second).
  rewrite Hn2, Hn1, Hc2, Hc1.
  repeat split; try assumption.
  rewrite <- !app_assoc. reflexivity.
Qed.

(** X4.  A startup that returns has logged two lines and no more: the
    banner with the port, and the addresses of the node as
    [AddrInfoToP2pAddrs] gave them for the ID and the addresses of the
    host; both carry the instant at which startup began. *)
Theorem startup_log env w ws ctx lc h :
  startup env w = (ws, Ret (ctx, lc, h)) ->
  exists addrs,
    AddrInfoToP2pAddrs env {| ai_ID := h_ID h; ai_Addrs := h_Addrs h |}
      = Ok addrs /\
    logged ws = logged w ++
      [(now w, "启动引导节点 " +:+ FormatInt (flag_port env));
       (now w, "我的地址: [" +:+ join_space addrs +:+ "]")].
Proof.
  intros E.
  destruct (startup_returns env w ws ctx lc h E)
    as (dir & k & w1 & w2 & -> & Hdir & Hfs1 & Hlog1 & Hc1 & Hn1 & Hid
        & w3 & Hh & w4 & Hn & Hb).
  destruct (resolve_identity_returns _ _ _ _ _ Hid)
    as (idc & Hidc & Hc2 & Hlog2 & Hn2).
  destruct (build_host_returns _ _ _ _ _ _ Hh) as (addrs & _ & Ha & ->).
  destruct (start_autonat_returns _ _ _ _ _ _ Hn) as (_ & ->).
  destruct (bootstrap_returns _ _ _ _ _ _ Hb)
    as (ma & target & t & _ & _ & _ & _ & ->).
  exists addrs. split; [exact Ha|]. simpl.
  rewrite Hlog2, Hlog1, Hn2, Hn1, <- app_assoc. reflexivity.
Qed.

(** *** Shutdown *)



(** *** Files *)

Lemma keeps_files_ret {A} (a : A) : keeps_files (@ret PrivKey A a).
Proof. now intros w. Qed.

Lemma keeps_files_bind {A B} (m : @M PrivKey A) (k : A -> @M PrivKey B) :
  keeps_files m -> (forall a, keeps_files (k a)) -> keeps_files (bind m k).
Proof.
  intros Hm Hk w. unfold bind. specialize (Hm w).
  destruct (m w) as [w1 [a|c|]]; simpl in *; try assumption.
  now rewrite Hk.
Qed.


Lemma keeps_files_build_host env ctx k : keeps_files (build_host env ctx k).
Proof.
  intros w. run. destruct (libp2p_New env (host_config env ctx k)) as [h|e];
    simpl; [|reflexivity].
  now destruct (AddrInfoToP2pAddrs env _).
Qed.

Lemma keeps_files_start_autonat env ctx h :
  keeps_files (start_autonat env ctx h).
Proof. intros w. run. now destruct (autonat_New env ctx h). Qed.

Lemma keeps_files_bootstrap env ctx h : keeps_files (bootstrap env ctx h).
Proof.
  intros w. run.
  destruct (NewMultiaddr env bootstrap_addr) as [ma|e]; simpl; [|reflexivity].
  destruct (AddrInfoFromP2pAddr env ma) as [ai|e]; simpl; [|reflexivity].
  now destruct (Connect env h _ ai (now w)) as [[t [e|]]|].
Qed.

Lemma keeps_files_after_identity env ctx k :
  keeps_files
    (bind (build_host env ctx k) (fun h =>
     bind (start_autonat env ctx h) (fun _ =>
     bind (bootstrap env ctx h) (fun lc => ret (ctx, lc, h))))).
Proof.
  apply keeps_files_bind; [apply keeps_files_build_host|intros h].
  apply keeps_files_bind; [apply keeps_files_start_autonat|intros _].
  apply keeps_files_bind; [apply keeps_files_bootstrap|intros lc].
  apply keeps_files_ret.
Qed.




Lemma main_files env evs w : fs (main env evs w).1 = fs (startup env w).1.
Proof.
  destruct (startup env w) as [ws r] eqn:E.
  pose proof (main_outcome env evs w ws r E) as Hm.
  destruct r as [[[ctx lc] h]|code|]; simpl.
  - now destruct Hm.
  - now rewrite Hm.
  - now rewrite Hm.
Qed.


(** *** The identity across restarts *)

Lemma calls_all_bind {A B} P (m : @M PrivKey A) (k : A -> @M PrivKey B) :
  calls_all P m -> (forall a, calls_all P (k a)) -> calls_all P (bind m k).
Proof.
  intros Hm Hk w. unfold bind.
  destruct (Hm w) as (new1 & Hc1 & H1).
  destruct (m w) as [w1 [a|code|]] eqn:E; simpl in *.
  - destruct (Hk a w1) as (new2 & Hc2 & H2).
    destruct (k a w1) as [w2 r2] eqn:E2; simpl in *.
    exists (new1 ++ new2). split; [now rewrite Hc2, Hc1, app_assoc|].
    now apply Forall_app.
  - exists new1. now split.
  - exists new1. now split.
Qed.

Lemma calls_all_ranked {A} (P : @Call PrivKey -> Prop) lo hi
    (m : @M PrivKey A) :
  ranked lo hi m ->
  (forall c, (lo <= call_rank c < hi)%nat -> P c) ->
  calls_all P m.
Proof.
  intros Hm HP w. destruct (Hm w) as (new & Hc & _ & Hr).
  exists new. split; [exact Hc|]. eapply Forall_impl; [exact Hr|exact HP].
Qed.

Lemma new_with_identity_other k (c : @Call PrivKey) :
  call_rank c <> 5%nat -> new_with_identity k c.
Proof. destruct c; simpl; try exact (fun _ => I). intros H. now destruct H. Qed.

Lemma calls_all_after_identity env ctx k :
  calls_all (new_with_identity k)
    (bind (build_host env ctx k) (fun h =>
     bind (start_autonat env ctx h) (fun _ =>
     bind (bootstrap env ctx h) (fun lc => ret (ctx, lc, h))))).
Proof.
  apply calls_all_bind.
  - intros w. run.
    destruct (libp2p_New env (host_config env ctx k)) as [h|e]; simpl.
    + destruct (AddrInfoToP2pAddrs env _) as [addrs|e]; simpl;
        eexists; (split; [trace_eq|]); repeat constructor.
    + eexists; (split; [trace_eq|]); repeat constructor.
  - intros h. apply calls_all_bind.
    + apply (calls_all_ranked _ 7 8); [apply ranked_start_autonat|].
      intros c Hc. apply new_with_identity_other. lia.
    + intros _. apply calls_all_bind.
      * apply (calls_all_ranked _ 8 12); [apply ranked_bootstrap|].
        intros c Hc. apply new_with_identity_other. lia.
      * intros lc w. exists []. simpl. rewrite app_nil_r. now split.
Qed.

Lemma ranked_no_new lo hi (l : list (@Call PrivKey)) cfg r :
  (hi <= 5)%nat ->
  Forall (fun c => (lo <= call_rank c < hi)%nat) l ->
  ~ In (CNew cfg r) l.
Proof.
  intros Hhi Hl Hin. rewrite Forall_forall in Hl.
  apply list_elem_of_In in Hin. specialize (Hl _ Hin). simpl in Hl. lia.
Qed.

(** A [libp2p.New] call of a startup is given the key that the identity
    step returned, and the files are thereafter as that step left
    them. *)
Lemma startup_new_identity env w out new cfg r :
  startup env w = out ->
  calls out.1 = calls w ++ new ->
  In (CNew cfg r) new ->
  exists dir w1 w2,
    exe_dir env = Ok dir /\ fs w1 = fs w /\
    resolve_identity env dir w1 = (w2, Ret (cfg_Identity cfg)) /\
    fs out.1 = fs w2.
Proof.
  unfold startup. unfold bind at 1. simpl. unfold bind at 1.
  match goal with |- context [program_dir env ?w0] =>
    set (w0' := w0);
    destruct (ranked_program_dir env w0') as (np & Hcp & _ & Hrp);
    destruct (program_dir env w0') as [w1 [dir|c|]] eqn:Hdir
  end; simpl in Hcp.
  - destruct (program_dir_returns _ _ _ _ Hdir) as [Hexe Hw1].
    unfold bind at 1.
    destruct (ranked_resolve_identity env dir w1) as (nr & Hcr & _ & Hrr).
    destruct (resolve_identity env dir w1) as [w2 [k|c|]] eqn:Hid;
      simpl in Hcr; intros <-.
    + destruct (calls_all_after_identity env (CancelCtx Background) k w2)
        as (nt & Hct & Hall).
      rewrite (keeps_files_after_identity env (CancelCtx Background) k w2).
      rewrite Hct, Hcr, Hcp, <- !app_assoc. intros Hn Hin.
      apply app_inv_head in Hn. subst new.
      apply in_app_or in Hin. destruct Hin as [Hin|Hin];
        [now apply (ranked_no_new 0 1) in Hin; [|lia|]|].
      apply in_app_or in Hin. destruct Hin as [Hin|Hin];
        [now apply (ranked_no_new 1 5) in Hin; [|lia|]|].
      rewrite Forall_forall in Hall. apply list_elem_of_In in Hin.
      specialize (Hall _ Hin). simpl in Hall. subst k.
      exists dir, w1, w2. split; [exact Hexe|].
      split; [rewrite Hw1; reflexivity|]. split; [exact Hid|reflexivity].
    + simpl. rewrite Hcr, Hcp, <- !app_assoc. intros Hn Hin. exfalso.
      apply app_inv_head in Hn. subst new.
      apply in_app_or in Hin. destruct Hin as [Hin|Hin].
      * now apply (ranked_no_new 0 1) in Hin; [|lia|].
      * now apply (ranked_no_new 1 5) in Hin; [|lia|].
    + simpl. rewrite Hcr, Hcp, <- !app_assoc. intros Hn Hin. exfalso.
      apply app_inv_head in Hn. subst new.
      apply in_app_or in Hin. destruct Hin as [Hin|Hin].
      * now apply (ranked_no_new 0 1) in Hin; [|lia|].
      * now apply (ranked_no_new 1 5) in Hin; [|lia|].
  - intros <-. simpl. rewrite Hcp. intros Hn Hin. exfalso.
    apply app_inv_head in Hn. subst new.
    now apply (ranked_no_new 0 1) in Hin; [|lia|].
  - intros <-. simpl. rewrite Hcp. intros Hn Hin. exfalso.
    apply app_inv_head in Hn. subst new.
    now apply (ranked_no_new 0 1) in Hin; [|lia|].
Qed.

Lemma main_new_identity env evs w new cfg r :
  calls (main env evs w).1 = calls w ++ new ->
  In (CNew cfg r) new ->
  exists dir w1 w2,
    exe_dir env = Ok dir /\ fs w1 = fs w /\
    resolve_identity env dir w1 = (w2, Ret (cfg_Identity cfg)) /\
    fs (main env evs w).1 = fs w2.
Proof.
  intros Hc Hin. rewrite (main_files env evs w).
  destruct (ranked_startup env w) as (ns & Hcs & _ & _).
  apply (startup_new_identity env w (startup env w) ns cfg r eq_refl Hcs).
  destruct (startup env w) as [ws rs] eqn:E.
  pose proof (main_outcome env evs w ws rs E) as Hm. simpl in Hcs.
  destruct rs as [[[ctx lc] h]|code|].
  - destruct Hm as [_ Hm].
    destruct (existsb is_signal evs); destruct Hm as [_ Hm];
      rewrite Hm, Hcs, <- app_assoc in Hc; apply app_inv_head in Hc;
      subst new; apply in_app_or in Hin; destruct Hin as [Hin|Hin];
      try exact Hin; simpl in Hin; exfalso;
      repeat (destruct Hin as [Hin|Hin]; [discriminate|]); exact Hin.
  - rewrite Hm in Hc. simpl in Hc. rewrite Hcs in Hc.
    apply app_inv_head in Hc. now subst new.
  - rewrite Hm in Hc. simpl in Hc. rewrite Hcs in Hc.
    apply app_inv_head in Hc. now subst new.
Qed.

(** X7.  Restarting keeps the identity.  A first run finds no key file
    and reaches [libp2p.New]; a second run of the program from the same
    directory, on the files the first run left, with a decoder that
    inverts the encoder of the first run and no I/O fault, gives
    [libp2p.New] the same key as identity. *)
Theorem restart_keeps_identity env1 env2 evs1 evs2 w1 w2 dir
    new1 new2 cfg1 r1 cfg2 r2 :
  exe_dir env1 = Ok dir ->
  exe_dir env2 = Ok dir ->
  IsNotExist (stat_result env1 (fs w1) (filepath_Join dir "private.key"))
    = true ->
  (forall k b,
     MarshalPrivateKey env1 k = Ok b -> UnmarshalPrivateKey env2 b = Ok k) ->
  stat_fault env2 = None ->
  read_fault env2 = None ->
  fs w2 = fs (main env1 evs1 w1).1 ->
  calls (main env1 evs1 w1).1 = calls w1 ++ new1 ->
  In (CNew cfg1 r1) new1 ->
  calls (main env2 evs2 w2).1 = calls w2 ++ new2 ->
  In (CNew cfg2 r2) new2 ->
  cfg_Identity cfg2 = cfg_Identity cfg1.
Proof.
  intros Hd1 Hd2 Hne Hcodec Hstat Hread Hfs Hc1 Hin1 Hc2 Hin2.
  set (path := filepath_Join dir "private.key") in *.
  destruct (main_new_identity env1 evs1 w1 new1 cfg1 r1 Hc1 Hin1)
    as (d1 & wa & wb & Hd1' & Hfa & Hid1 & Hfb).
  rewrite Hd1 in Hd1'. injection Hd1' as <-.
  destruct (main_new_identity env2 evs2 w2 new2 cfg2 r2 Hc2 Hin2)
    as (d2 & wc & wd & Hd2' & Hfc & Hid2 & _).
  rewrite Hd2 in Hd2'. injection Hd2' as <-.
  rewrite <- Hfa in Hne.
  destruct (resolve_generated_inv env1 dir wa wb _ Hne Hid1)
    as (b & _ & Hm & Hw).
  fold path in Hw.
  set (f := written_file env1 (fs wa) path b os_ModePerm) in Hw.
  assert (fs wc !! path = Some f) as Hf
    by (rewrite Hfc, Hfs, Hfb, Hw; apply lookup_insert_eq).
  assert (f_data f = b) as Hdata
    by (unfold f, written_file; now destruct (fs wa !! path)).
  pose proof (resolve_present env2 dir wc) as Hp. simpl in Hp.
  fold path in Hp.
  rewrite (stat_result_present env2 (fs wc) path f Hstat Hf) in Hp.
  rewrite (read_result_present env2 (fs wc) path f Hread Hf) in Hp.
  rewrite Hdata, (Hcodec _ b Hm) in Hp. specialize (Hp eq_refl).
  rewrite Hid2 in Hp. now injection Hp as _ ->.
Qed.

(** *** The port in the listen addresses *)

Lemma string_length_app (s t : string) :
  String.length (s +:+ t) = (String.length s + String.length t)%nat.
Proof. induction s as [|a s IH]; simpl; [reflexivity|now rewrite IH]. Qed.

Lemma string_app_inv_tail (s1 s2 t : string) :
  s1 +:+ t = s2 +:+ t -> s1 = s2.
Proof.
  intros H.
  assert (String.length s1 = String.length s2) as Hl
    by (apply (f_equal String.length) in H;
        rewrite !string_length_app in H; lia).
  revert s2 H Hl.
  induction s1 as [|a s1 IH]; intros [|b s2]; simpl; try discriminate.
  - trivial.
  - intros [= -> H] [= Hl]. f_equal. now apply IH.
Qed.

Lemma FormatInt_inj (p q : Z) : FormatInt p = FormatInt q -> p = q.
Proof.
  intros H. apply (f_equal ParseInt) in H.
  rewrite !ParseInt_FormatInt in H. now injection H.
Qed.

(** X8.  The listen addresses tell the port: two values of the port flag
    give the same addresses only when they are the same value, already by
    the TCP address alone or by the QUIC address alone; and the TCP and
    the QUIC address of a node are never the same string. *)
Theorem listen_addresses_tell_port (p q : Z) :
  (ListenAddrStrings p = ListenAddrStrings q <-> p = q) /\
  (ListenAddrStrings p !! 0%nat = ListenAddrStrings q !! 0%nat -> p = q) /\
  (ListenAddrStrings p !! 1%nat = ListenAddrStrings q !! 1%nat -> p = q) /\
  ListenAddrStrings p !! 0%nat <> ListenAddrStrings q !! 1%nat.
Proof.
  assert (forall a b, ListenAddrStrings a !! 0%nat = ListenAddrStrings b !! 0%nat
                      -> a = b) as H0.
  { intros a b H. simpl in H. injection H as H. simpl in H.
    now apply FormatInt_inj. }
  split; [|split; [exact (H0 p q)|split]].
  - split; [|now intros ->]. intros H. apply H0. now rewrite H.
  - intros H. simpl in H. injection H as H. simpl in H.
    apply FormatInt_inj. exact (string_app_inv_tail _ _ "/quic" H).
  - simpl. discriminate.
Qed.

End Properties.

(** * The sample environment: instances and counterexamples *)

Example sample_run_log :
  map snd (logged (fst (main good_env [EvTick 3; EvSignal 0] empty_world))) =
  ["启动引导节点 6666";
   "我的地址: [/ip4/0.0.0.0/tcp/6666/p2p/QmSelf /ip4/0.0.0.0/udp/6666/quic/p2p/QmSelf]";
   "节点数量 3";
   "收到信号, 关闭程序"].
Proof. vm_compute. reflexivity. Qed.

Example sample_run_exit :
  snd (main good_env [EvTick 3; EvSignal 0] empty_world) = Exit 0.
Proof. vm_compute. reflexivity. Qed.

Lemma sample_codec_inverts (k : bytes) (b : bytes) :
  sample_marshal k = Ok b -> sample_unmarshal b = Ok k.
Proof. now intros [= <-]. Qed.

(** Instance of C3: no key file; a key file holding a serialized key; a
    key file holding bytes that do not decode. *)
Lemma identity_resolution_cases_witness :
  (exists w',
     resolve_identity good_env "/opt/node" empty_world = (w', Ret sample_key) /\
     f_data <$> (fs w' !! key_path) = Some sample_file_bytes /\
     calls w' =
       [CStat key_path (Some ENOENT);
        CGenerateKeyPair Ed25519 (-1) (Ok sample_key);
        CMarshalPrivateKey sample_key (Ok sample_file_bytes);
        CWriteFile key_path sample_file_bytes os_ModePerm None]) /\
  (exists w',
     resolve_identity good_env "/opt/node" (world_with_key sample_file_bytes)
       = (w', Ret sample_key) /\
     fs w' = fs (world_with_key sample_file_bytes) /\
     calls w' =
       [CStat key_path None; CReadFile key_path (Ok sample_file_bytes);
        CUnmarshalPrivateKey sample_file_bytes (Ok sample_key)]) /\
  (exists w',
     resolve_identity good_env "/opt/node" (world_with_key [Byte.xff])
       = (w', Exit 1) /\
     last (logged w') = Some (0, "malformed private key")).
Proof.
  split; [|split].
  - destruct (identity_resolution_cases good_env "/opt/node" empty_world eq_refl)
      as [H _].
    exact (H eq_refl sample_key sample_file_bytes eq_refl eq_refl eq_refl).
  - destruct (identity_resolution_cases good_env "/opt/node"
                (world_with_key sample_file_bytes) eq_refl) as [_ H].
    destruct (H {| f_data := sample_file_bytes; f_mode := 493 |} eq_refl eq_refl)
      as [H1 _].
    exact (H1 sample_key eq_refl).
  - destruct (identity_resolution_cases good_env "/opt/node"
                (world_with_key [Byte.xff]) eq_refl) as [_ H].
    destruct (H {| f_data := [Byte.xff]; f_mode := 493 |} eq_refl eq_refl)
      as [_ H2].
    exact (H2 (ErrMsg "malformed private key") eq_refl).
Defined.

(** Counterexample to C4: with the usual umask (octal 022) and no key
    file, the key is generated and written, [ioutil.WriteFile] is asked
    for octal 777, and the key file is created with mode octal 755,
    readable by group and others: it is not owner-only. *)
Lemma key_file_mode_not_owner_only :
  let out := resolve_identity good_env "/opt/node" empty_world in
  fs empty_world !! key_path = None /\
  out.2 = Ret sample_key /\
  last (calls out.1) = Some (CWriteFile key_path sample_file_bytes 511 None) /\
  owner_only 511 = false /\
  fs out.1 !! key_path =
    Some {| f_data := sample_file_bytes; f_mode := 493 |} /\
  ~ (forall f, fs out.1 !! key_path = Some f -> owner_only (f_mode f) = true).
Proof.
  assert (fs (resolve_identity good_env "/opt/node" empty_world).1 !! key_path
          = Some {| f_data := sample_file_bytes; f_mode := 493 |}) as Hf
    by (vm_compute; reflexivity).
  repeat split; try (vm_compute; reflexivity); try exact Hf.
  intros H. specialize (H _ Hf). discriminate H.
Qed.

(** Instance of C4 as amended. *)
Lemma key_file_written_with_ModePerm_witness :
  exists w' pre,
    resolve_identity good_env "/opt/node" empty_world = (w', Ret sample_key) /\
    calls w' = pre ++ [CWriteFile key_path sample_file_bytes 511 None] /\
    fs w' !! key_path =
      Some {| f_data := sample_file_bytes; f_mode := Z.ldiff 511 18 |} /\
    owner_only (Z.ldiff 511 18) = Z.eqb (Z.ldiff 63 18) 0.
Proof.
  exact (key_file_written_with_ModePerm good_env "/opt/node" empty_world
           sample_key sample_file_bytes eq_refl eq_refl eq_refl eq_refl eq_refl).
Defined.

(** Instance of C2: the sample key generated by a first run is the key a
    second run loads. *)
Lemma identity_roundtrip_witness :
  let w1' := (resolve_identity good_env "/opt/node" empty_world).1 in
  exists w2' k' b,
    MarshalPrivateKey good_env sample_key = Ok b /\
    f_data <$> (fs w1' !! key_path) = Some b /\
    resolve_identity good_env "/opt/node" w1' = (w2', Ret k') /\
    k' = sample_key /\
    IDFromPrivateKey sample_GetPublic sample_IDFromPublicKey k' =
      IDFromPrivateKey sample_GetPublic sample_IDFromPublicKey sample_key.
Proof.
  intros w1'.
  exact (identity_roundtrip sample_GetPublic sample_IDFromPublicKey
           good_env good_env "/opt/node" empty_world w1' w1' sample_key
           eq_refl eq_refl sample_codec_inverts eq_refl eq_refl eq_refl).
Defined.

(** Counterexample to C7: when [autonat.New] returns an error, and every
    other step would succeed, startup ends with status 1 after logging
    that error. *)
Lemma autonat_failure_is_fatal :
  (exists s, (startup good_env empty_world).2 = Ret s) /\
  autonat_New autonat_failing_env (CancelCtx Background) sample_host
    = Some (ErrMsg "autonat: construction failed") /\
  (startup autonat_failing_env empty_world).2 = Exit 1 /\
  last (calls (startup autonat_failing_env empty_world).1) =
    Some (CAutonatNew (CancelCtx Background) sample_host
            (Some (ErrMsg "autonat: construction failed"))) /\
  last (logged (startup autonat_failing_env empty_world).1) =
    Some (0, "autonat: construction failed").
Proof. vm_compute. repeat split; try reflexivity. eexists; reflexivity. Qed.

(** Instance of C7 as amended. *)
Lemma nat_outcome_ignored_autonat_error_fatal_witness :
  main (with_nat_status autonat_failing_env ReachabilityPublic true)
       [EvTick 2] empty_world
    = main autonat_failing_env [EvTick 2] empty_world /\
  start_autonat autonat_failing_env (CancelCtx Background) sample_host
      empty_world =
    ({| fs := ∅;
        logged := [(0, "autonat: construction failed")];
        calls := [CAutonatNew (CancelCtx Background) sample_host
                    (Some (ErrMsg "autonat: construction failed"))];
        now := 0 |}, Exit 1) /\
  (startup autonat_failing_env empty_world).2 = Exit 1.
Proof.
  destruct (nat_outcome_ignored_autonat_error_fatal autonat_failing_env
              empty_world) as (H1 & H2 & H3).
  split; [|split].
  - exact (H1 ReachabilityPublic true [EvTick 2]).
  - exact (H2 (CancelCtx Background) sample_host
             (ErrMsg "autonat: construction failed") eq_refl).
  - refine (proj1 (H3 (calls (startup autonat_failing_env empty_world).1)
                      (CancelCtx Background) sample_host
                      (ErrMsg "autonat: construction failed") eq_refl _)).
    vm_compute. tauto.
Defined.

Lemma silent_env_honours_deadline : honours_deadline silent_env.
Proof.
  intros h ctx target t d Hd. simpl. unfold silent_connect. rewrite Hd.
  eexists _, _. split; [reflexivity|]. lia.
Qed.

Lemma silent_env_unreachable : unreachable silent_env sample_target.
Proof.
  intros h ctx t t'. simpl. unfold silent_connect.
  destruct (Deadline ctx); discriminate.
Qed.

(** Instance of C5: a target that never answers. *)
Lemma bootstrap_dial_bounded_witness :
  honours_deadline silent_env /\
  unreachable silent_env sample_target /\
  exists w' t e,
    bootstrap silent_env (CancelCtx Background) sample_host empty_world
      = (w', Exit 1) /\
    last (calls w') =
      Some (CConnect (TimerCtx (CancelCtx Background) (16 * Second))
              sample_target (Some (t, Some e))) /\
    t <= 16 * Second /\
    now w' <= 16 * Second.
Proof.
  split; [exact silent_env_honours_deadline|].
  split; [exact silent_env_unreachable|].
  destruct (bootstrap_dial_bounded silent_env silent_env_honours_deadline)
    as [Hstage _].
  destruct (Hstage (CancelCtx Background) sample_host empty_world
              bootstrap_addr sample_target eq_refl eq_refl
              silent_env_unreachable)
    as (w' & t & e & Hrun & Hcalls & _ & Ht & Hnow & _).
  exists w', t, e. repeat split; try assumption.
  rewrite Hcalls. reflexivity.
Defined.

(** Without a deadline the same dial would never return. *)
Example silent_dial_without_deadline :
  silent_connect sample_host (CancelCtx Background) sample_target 0 = None.
Proof. reflexivity. Qed.

(** With a permission error from [os.Stat] the key file is read all the
    same. *)
Example stat_error_reads_file :
  (resolve_identity stat_denied_env "/opt/node"
     (world_with_key sample_file_bytes)).2 = Ret sample_key /\
  calls (resolve_identity stat_denied_env "/opt/node"
           (world_with_key sample_file_bytes)).1 =
    [CStat key_path (Some EACCES); CReadFile key_path (Ok sample_file_bytes);
     CUnmarshalPrivateKey sample_file_bytes (Ok sample_key)].
Proof. vm_compute. split; reflexivity. Qed.

(** The connection manager is made with the marks 100 and 400 and a
    grace period of one minute. *)
Lemma connection_manager_configuration {PrivKey : Type}
    (env : @Env PrivKey) ctx k :
  cfg_ConnectionManager (host_config env ctx k) =
    {| LowWater := 100; HighWater := 400; GracePeriod := 60 * Second |}.
Proof. reflexivity. Qed.

(** ** Instances for the whole-run properties *)

Lemma sample_startup_returns :
  startup good_env empty_world =
    ((startup good_env empty_world).1,
     Ret (sample_ctx, sample_lc, sample_host)).
Proof. vm_compute. reflexivity. Qed.



(** Instance of X3. *)
Lemma startup_trace_witness :
  exists dir k idc addrs ma target t,
    exe_dir good_env = Ok dir /\
    identity_calls (filepath_Join dir "private.key") k idc /\
    sample_ctx = CancelCtx Background /\
    sample_lc = TimerCtx sample_ctx (now empty_world + 16 * Second) /\
    calls (startup good_env empty_world).1 =
      calls empty_world ++ CAbs (Ok dir) :: idc ++
        [CNew (host_config good_env sample_ctx k) (Ok sample_host);
         CAddrInfoToP2pAddrs
           {| ai_ID := h_ID sample_host; ai_Addrs := h_Addrs sample_host |}
           (Ok addrs);
         CAutonatNew sample_ctx sample_host None;
         CNewMultiaddr bootstrap_addr (Ok ma);
         CAddrInfoFromP2pAddr ma (Ok target);
         CWithTimeout sample_ctx (16 * Second);
         CConnect sample_lc target (Some (t, None))] /\
    now (startup good_env empty_world).1 = Z.max (now empty_world) t.
Proof.
  exact (startup_trace good_env empty_world _ sample_ctx sample_lc
           sample_host sample_startup_returns).
Defined.

(** Instance of X4. *)
Lemma startup_log_witness :
  exists addrs,
    AddrInfoToP2pAddrs good_env
      {| ai_ID := h_ID sample_host; ai_Addrs := h_Addrs sample_host |}
      = Ok addrs /\
    logged (startup good_env empty_world).1 =
      logged empty_world ++
        [(now empty_world, "启动引导节点 " +:+ FormatInt (flag_port good_env));
         (now empty_world, "我的地址: [" +:+ join_space addrs +:+ "]")].
Proof.
  exact (startup_log good_env empty_world _ sample_ctx sample_lc
           sample_host sample_startup_returns).
Defined.


Lemma sample_first_run_new :
  In (CNew sample_config (Ok sample_host))
     (calls (main good_env [EvSignal 0] empty_world).1).
Proof. vm_compute. do 5 right. left. reflexivity. Qed.

Lemma sample_second_run_new :
  In (CNew sample_config (Ok sample_host))
     (calls (main good_env [EvTick 1] sample_restart_world).1).
Proof. vm_compute. do 4 right. left. reflexivity. Qed.

Lemma sample_restart_files :
  fs sample_restart_world = fs (main good_env [EvSignal 0] empty_world).1.
Proof. vm_compute. reflexivity. Qed.

Lemma sample_first_run_trace :
  calls (main good_env [EvSignal 0] empty_world).1 =
    calls empty_world ++ calls (main good_env [EvSignal 0] empty_world).1.
Proof. vm_compute. reflexivity. Qed.

Lemma sample_second_run_trace :
  calls (main good_env [EvTick 1] sample_restart_world).1 =
    calls sample_restart_world ++
    calls (main good_env [EvTick 1] sample_restart_world).1.
Proof. vm_compute. reflexivity. Qed.

(** Instance of X7: the sample node restarted on the files its first run
    left. *)
Lemma restart_keeps_identity_witness :
  In (CNew sample_config (Ok sample_host))
     (calls (main good_env [EvSignal 0] empty_world).1) /\
  In (CNew sample_config (Ok sample_host))
     (calls (main good_env [EvTick 1] sample_restart_world).1) /\
  cfg_Identity sample_config = cfg_Identity sample_config.
Proof.
  split; [exact sample_first_run_new|].
  split; [exact sample_second_run_new|].
  exact (restart_keeps_identity good_env good_env [EvSignal 0] [EvTick 1]
           empty_world sample_restart_world "/opt/node"
           (calls (main good_env [EvSignal 0] empty_world).1)
           (calls (main good_env [EvTick 1] sample_restart_world).1)
           sample_config (Ok sample_host) sample_config (Ok sample_host)
           eq_refl eq_refl eq_refl sample_codec_inverts eq_refl eq_refl
           sample_restart_files sample_first_run_trace sample_first_run_new
           sample_second_run_trace sample_second_run_new).
Defined.

(** The second run of the sample loads the key: it reads the key file
    and generates nothing. *)
Example sample_second_run_loads :
  map call_rank (calls (main good_env [EvTick 1] sample_restart_world).1) =
    [0; 1; 2; 3; 5; 6; 7; 8; 9; 10; 11; 12]%nat /\
  existsb is_generate
    (calls (main good_env [EvTick 1] sample_restart_world).1) = false /\
  fs (main good_env [EvTick 1] sample_restart_world).1 =
    fs sample_restart_world.
Proof. vm_compute. repeat split; reflexivity. Qed.
